(** * cert-manager controller bootstrap: cmd/controller/app/controller.go

    A shallow embedding of [Run], [buildControllerContext] and
    [startLeaderElection].  The collaborators the file only calls (the
    Kubernetes client constructors, [resource.ParseQuantity], the controller
    registry, [os.Hostname], the leader elector) are parameters of the
    development; goroutines become the threads of a labelled transition
    system whose labels are the scheduler's and the collaborators' choices. *)

From Stdlib Require Import ZArith.
From stdpp Require Import base strings list gmap sets.

Set Warnings "-register-all".

(** ** Go values *)

(** A Go [error] that is not nil, by its [Error()] text. *)
Definition error : Type := string.

(** The pair [(T, error)] of a fallible call. *)
Inductive result (A : Type) : Type :=
| Ok (a : A)
| Err (e : error).
Arguments Ok {A} a.
Arguments Err {A} e.

Definition is_ok {A} (r : result A) : bool :=
  match r with Ok _ => true | Err _ => false end.

(** [time.Duration], in nanoseconds. *)
Definition Duration : Type := Z.
Definition Second : Duration := 1000000000%Z.

(** Channels of the file: the caller's stop channel and the one the leader
    elector hands to [OnStartedLeading]. *)
Inductive chan : Type := StopCh | LeaderStop.

Global Instance chan_eq_dec : EqDecision chan.
Proof. solve_decision. Defined.

Set Implicit Arguments.

(** ** options.ControllerOptions *)

Module options.

(** Modelled from the spec: the options structure of package
    cmd/controller/app/options, by the fields controller.go reads. *)
Record ControllerOptions : Type := {
  APIServerHost : string;
  Namespace : string;
  EnabledControllers : list string;
  LeaderElect : bool;
  LeaderElectionNamespace : string;
  LeaderElectionLeaseDuration : Duration;
  LeaderElectionRenewDeadline : Duration;
  LeaderElectionRetryPeriod : Duration;
  ACMEHTTP01SolverImage : string;
  ACMEHTTP01SolverResourceRequestCPU : string;
  ACMEHTTP01SolverResourceRequestMemory : string;
  ACMEHTTP01SolverResourceLimitsCPU : string;
  ACMEHTTP01SolverResourceLimitsMemory : string;
  DNS01RecursiveNameservers : list string;
  DNS01RecursiveNameserversOnly : bool;
  ClusterIssuerAmbientCredentials : bool;
  IssuerAmbientCredentials : bool;
  ClusterResourceNamespace : string;
  RenewBeforeExpiryDuration : Duration;
  DefaultIssuerName : string;
  DefaultIssuerKind : string;
  DefaultAutoCertificateAnnotations : list string;
  DefaultACMEIssuerChallengeType : string;
  DefaultACMEIssuerDNS01ProviderName : string;
  EnableCertificateOwnerRef : bool
}.

End options.

(** ** controller.Context *)

Module controller.

(** What [NewFilteredSharedInformerFactory] was given (the tweak function
    is nil at both call sites). *)
Record InformerFactory (Client : Type) : Type := {
  informerClient : Client;
  defaultResync : Duration;
  informerNamespace : string
}.

(** The recorder of the event broadcaster: its source component and the
    client whose [Events] sink it records to. *)
Record EventRecorder (Client : Type) : Type := {
  Component : string;
  sinkClient : Client;
  sinkNamespace : string
}.

Record ACMEOptions (Quantity : Type) : Type := {
  HTTP01SolverImage : string;
  HTTP01SolverResourceRequestCPU : Quantity;
  HTTP01SolverResourceRequestMemory : Quantity;
  HTTP01SolverResourceLimitsCPU : Quantity;
  HTTP01SolverResourceLimitsMemory : Quantity;
  DNS01CheckAuthoritative : bool;
  DNS01Nameservers : list string
}.

Record IssuerOptions : Type := {
  ClusterIssuerAmbientCredentials : bool;
  IssuerAmbientCredentials : bool;
  ClusterResourceNamespace : string;
  RenewBeforeExpiryDuration : Duration
}.

Record IngressShimOptions : Type := {
  DefaultIssuerName : string;
  DefaultIssuerKind : string;
  DefaultAutoCertificateAnnotations : list string;
  DefaultACMEIssuerChallengeType : string;
  DefaultACMEIssuerDNS01ProviderName : string
}.

Record CertificateOptions : Type := {
  EnableOwnerRef : bool
}.

(** Modelled from the spec: [controller.Context] of package pkg/controller,
    by the fields the composite literal of [buildControllerContext] sets.
    The four option groups are fields named like their types in Go; here
    the fields carry a trailing underscore. *)
Record Context (Clientset CMClientset Quantity : Type) : Type := {
  Client : Clientset;
  CMClient : CMClientset;
  Recorder : EventRecorder Clientset;
  KubeSharedInformerFactory : InformerFactory Clientset;
  SharedInformerFactory : InformerFactory CMClientset;
  Namespace : string;
  ACMEOptions_ : ACMEOptions Quantity;
  IssuerOptions_ : IssuerOptions;
  IngressShimOptions_ : IngressShimOptions;
  CertificateOptions_ : CertificateOptions
}.

End controller.

Module clusterissuers.
(** Modelled from the spec: the constant [ControllerName] of package
    pkg/controller/clusterissuers, the name of the cluster-scoped
    controller. *)
Definition ControllerName : string := "clusterissuers".
End clusterissuers.

Module util.
(** Modelled from the spec: [util.Contains] of package pkg/util, membership
    of a name in the enabled-controller list. *)
Definition Contains (ss : list string) (s : string) : bool :=
  bool_decide (s ∈ ss).
End util.

(** ** leaderelection and resourcelock, by what the file hands them *)

Module resourcelock.

Record ObjectMeta : Type := {
  Namespace : string;
  Name : string
}.

Record ResourceLockConfig (Recorder : Type) : Type := {
  Identity : string;
  EventRecorder : Recorder
}.

Record ConfigMapLock (Client Recorder : Type) : Type := {
  ConfigMapMeta : ObjectMeta;
  Client : Client;
  LockConfig : ResourceLockConfig Recorder
}.

End resourcelock.

Module leaderelection.

(** The callbacks are code: [P] is the type of the code of a goroutine. *)
Record LeaderCallbacks (P : Type) : Type := {
  OnStartedLeading : chan → P;
  OnStoppedLeading : P
}.

Record LeaderElectionConfig (Lock P : Type) : Type := {
  Lock : Lock;
  LeaseDuration : Duration;
  RenewDeadline : Duration;
  RetryPeriod : Duration;
  Callbacks : LeaderCallbacks P
}.

End leaderelection.

Unset Implicit Arguments.

(** ** Observable events *)

(** The four resource quantities of the ACME HTTP-01 solver pod. *)
Inductive QField : Type :=
| RequestCPU | RequestMemory | LimitsCPU | LimitsMemory.

Global Instance QField_eq_dec : EqDecision QField.
Proof. solve_decision. Defined.

(** The name of the option, as the error messages spell it. *)
Definition field_name (f : QField) : string :=
  match f with
  | RequestCPU => "ACMEHTTP01SolverResourceRequestCPU"
  | RequestMemory => "ACMEHTTP01SolverResourceRequestMemory"
  | LimitsCPU => "ACMEHTTP01SolverResourceLimitsCPU"
  | LimitsMemory => "ACMEHTTP01SolverResourceLimitsMemory"
  end.

Definition field_value (opts : options.ControllerOptions) (f : QField) : string :=
  match f with
  | RequestCPU => options.ACMEHTTP01SolverResourceRequestCPU opts
  | RequestMemory => options.ACMEHTTP01SolverResourceRequestMemory opts
  | LimitsCPU => options.ACMEHTTP01SolverResourceLimitsCPU opts
  | LimitsMemory => options.ACMEHTTP01SolverResourceLimitsMemory opts
  end.

Inductive client_kind : Type :=
| InternalGroupClient | KubernetesClient | LeaderElectionClient.

Global Instance client_kind_eq_dec : EqDecision client_kind.
Proof. solve_decision. Defined.

Inductive factory_kind : Type :=
| SharedInformerFactory | KubeSharedInformerFactory.

Global Instance factory_kind_eq_dec : EqDecision factory_kind.
Proof. solve_decision. Defined.

(** A worker of the supervisor: the metrics exporter or a controller. *)
Inductive wid : Type :=
| Metrics
| Controller (n : string).

Global Instance wid_eq_dec : EqDecision wid.
Proof. solve_decision. Defined.

Inductive event : Type :=
| EvInfo (v : nat) (msg : string)              (* glog.V(v).Infof, v = 0 for glog.Infof *)
| EvKubeConfig (host : string) (ok : bool)     (* kube.KubeConfig *)
| EvNewClient (k : client_kind) (ok : bool)    (* clientset/kubernetes.NewForConfig *)
| EvParseQuantity (f : QField) (s : string) (ok : bool)
| EvEnterRun (arg : chan)                      (* the closure [run] is entered *)
| EvGo (w : wid)                               (* a go statement registers a goroutine *)
| EvFactoryStart (f : factory_kind) (stop : chan)
| EvWgWait                                     (* wg.Wait() is called *)
| EvInvoke (n : string) (workers : Z) (stop : chan)  (* fn(workers, stopCh) *)
| EvMetricsStart (stop : chan)                 (* metrics.Default.Start(stopCh) *)
| EvReturn (w : wid) (err : option error)      (* the worker's call returns *)
| EvStartedLeading
| EvStoppedLeading
| EvFatal (msg : string)                       (* glog.Fatalf: log, then exit *)
| EvPanic (msg : string).

Global Instance event_eq_dec : EqDecision event.
Proof. solve_decision. Defined.

(** ** The writer-and-error monad of the straight-line code *)

Definition M (A : Type) : Type := (list event * result A)%type.

Definition ret {A} (a : A) : M A := ([], Ok a).

Definition bind {A B} (m : M A) (k : A → M B) : M B :=
  match m with
  | (t, Ok a) => let '(t', r) := k a in (t ++ t', r)
  | (t, Err e) => (t, Err e)
  end.

Definition emit (e : event) : M unit := ([e], Ok tt).

(** A call into a collaborator, recorded with its outcome. *)
Definition call {A} (ev : bool → event) (r : result A) : M A :=
  ([ev (is_ok r)], r).

(** [if err != nil { return nil, nil, fmt.Errorf(prefix + "%s", err.Error()) }] *)
Definition orErrorf {A} (m : M A) (prefix : string) : M A :=
  match m with
  | (t, Err e) => (t, Err (prefix +:+ e))
  | (t, Ok a) => (t, Ok a)
  end.

Notation "'let!' x ':=' m 'in' k" := (bind m (λ x, k))
  (at level 10, x name, m at level 100, k at level 200, only parsing).
Notation "'do!' m 'in' k" := (bind m (λ _, k))
  (at level 10, m at level 100, k at level 200, only parsing).

(** [%v] of a string slice. *)
Definition fmt_v (l : list string) : string :=
  "[" +:+ String.concat " " l +:+ "]".

Definition controllerAgentName : string := "cert-manager".

(** ** The collaborators

    The handles of the collaborators are opaque, and so are the functions
    the file calls on them. *)
Class Handles : Type := {
  Config : Type;          (* rest.Config *)
  Clientset : Type;       (* kubernetes.Clientset *)
  CMClientset : Type;     (* clientset.Clientset of the cert-manager group *)
  CoreV1Client : Type;    (* what CoreV1() of a clientset returns *)
  Quantity : Type;        (* resource.Quantity *)
  Interface : Type        (* controller.Interface, the runnable of a controller *)
}.

Class Collaborators {HS : Handles} : Type := {
  (** [kube.KubeConfig] *)
  KubeConfig : string → result Config;
  (** [clientset.NewForConfig] and [kubernetes.NewForConfig] *)
  clientset_NewForConfig : Config → result CMClientset;
  kubernetes_NewForConfig : Config → result Clientset;
  (** [rest.AddUserAgent] and the [CoreV1()] accessor *)
  AddUserAgent : Config → string → Config;
  CoreV1 : Clientset → CoreV1Client;
  (** [resource.ParseQuantity] *)
  ParseQuantity : string → result Quantity;
  (** [dnsutil.RecursiveNameservers], the package default *)
  RecursiveNameservers : list string;
  (** [os.Hostname()] *)
  Hostname : result string;
  (** [controller.Known()]: the registry, a Go map from name to factory *)
  Known : gmap string (controller.Context Clientset CMClientset Quantity → Interface);
  (** the order in which [range] yields the entries of that map in this run *)
  range_Known : list (string * (controller.Context Clientset CMClientset Quantity → Interface))
}.

Section App.

Context {HS : Handles} {W : Collaborators}.

Abbreviation Ctx := (controller.Context Clientset CMClientset Quantity).

Definition parse (opts : options.ControllerOptions) (f : QField) : M Quantity :=
  orErrorf
    (call (EvParseQuantity f (field_value opts f)) (ParseQuantity (field_value opts f)))
    ("error parsing " +:+ field_name f +:+ ": ").

Definition buildControllerContext (opts : options.ControllerOptions)
  : M (Ctx * Config) :=
  (* Load the users Kubernetes config *)
  let! kubeCfg := orErrorf
    (call (EvKubeConfig (options.APIServerHost opts))
          (KubeConfig (options.APIServerHost opts)))
    "error creating rest config: " in
  (* Create a Navigator api client *)
  let! intcl := orErrorf
    (call (EvNewClient InternalGroupClient) (clientset_NewForConfig kubeCfg))
    "error creating internal group client: " in
  (* Create a Kubernetes api client *)
  let! cl := orErrorf
    (call (EvNewClient KubernetesClient) (kubernetes_NewForConfig kubeCfg))
    "error creating kubernetes client: " in
  let nameservers := options.DNS01RecursiveNameservers opts in
  let nameservers :=
    if (length nameservers =? 0)%nat then RecursiveNameservers else nameservers in
  do! emit (EvInfo 0 ("Using the following nameservers for DNS01 checks: "
                    +:+ fmt_v nameservers)) in
  let! HTTP01SolverResourceRequestCPU := parse opts RequestCPU in
  let! HTTP01SolverResourceRequestMemory := parse opts RequestMemory in
  let! HTTP01SolverResourceLimitsCPU := parse opts LimitsCPU in
  let! HTTP01SolverResourceLimitsMemory := parse opts LimitsMemory in
  (* Create event broadcaster *)
  do! emit (EvInfo 4 "Creating event broadcaster") in
  let recorder :=
    {| controller.Component := controllerAgentName;
       controller.sinkClient := cl;
       controller.sinkNamespace := "" |} in
  let sharedInformerFactory :=
    {| controller.informerClient := intcl;
       controller.defaultResync := (Second * 30)%Z;
       controller.informerNamespace := options.Namespace opts |} in
  let kubeSharedInformerFactory :=
    {| controller.informerClient := cl;
       controller.defaultResync := (Second * 30)%Z;
       controller.informerNamespace := options.Namespace opts |} in
  ret
    ({| controller.Client := cl;
        controller.CMClient := intcl;
        controller.Recorder := recorder;
        controller.KubeSharedInformerFactory := kubeSharedInformerFactory;
        controller.SharedInformerFactory := sharedInformerFactory;
        controller.Namespace := options.Namespace opts;
        controller.ACMEOptions_ :=
          {| controller.HTTP01SolverImage := options.ACMEHTTP01SolverImage opts;
             controller.HTTP01SolverResourceRequestCPU := HTTP01SolverResourceRequestCPU;
             controller.HTTP01SolverResourceRequestMemory := HTTP01SolverResourceRequestMemory;
             controller.HTTP01SolverResourceLimitsCPU := HTTP01SolverResourceLimitsCPU;
             controller.HTTP01SolverResourceLimitsMemory := HTTP01SolverResourceLimitsMemory;
             controller.DNS01CheckAuthoritative :=
               negb (options.DNS01RecursiveNameserversOnly opts);
             controller.DNS01Nameservers := nameservers |};
        controller.IssuerOptions_ :=
          {| controller.ClusterIssuerAmbientCredentials :=
               options.ClusterIssuerAmbientCredentials opts;
             controller.IssuerAmbientCredentials := options.IssuerAmbientCredentials opts;
             controller.ClusterResourceNamespace := options.ClusterResourceNamespace opts;
             controller.RenewBeforeExpiryDuration := options.RenewBeforeExpiryDuration opts |};
        controller.IngressShimOptions_ :=
          {| controller.DefaultIssuerName := options.DefaultIssuerName opts;
             controller.DefaultIssuerKind := options.DefaultIssuerKind opts;
             controller.DefaultAutoCertificateAnnotations :=
               options.DefaultAutoCertificateAnnotations opts;
             controller.DefaultACMEIssuerChallengeType :=
               options.DefaultACMEIssuerChallengeType opts;
             controller.DefaultACMEIssuerDNS01ProviderName :=
               options.DefaultACMEIssuerDNS01ProviderName opts |};
        controller.CertificateOptions_ :=
          {| controller.EnableOwnerRef := options.EnableCertificateOwnerRef opts |} |},
     kubeCfg).

(** ** Goroutines as threads of actions *)

(** The two kinds of goroutine [run] registers, with what their closures
    capture: the stop channel, and for a controller its name and the
    runnable [fn(ctx)], evaluated at the go statement. *)
Inductive worker : Type :=
| WMetrics (stop : chan)
| WController (n : string) (fn : Interface) (stop : chan).

Definition wid_of (w : worker) : wid :=
  match w with
  | WMetrics _ => Metrics
  | WController n _ _ => Controller n
  end.

Abbreviation ConfigMapLock :=
  (resourcelock.ConfigMapLock CoreV1Client (controller.EventRecorder Clientset)).

(** The statements of the main goroutine and of the goroutine that runs
    [OnStartedLeading].  [AWgBlocked] is not a statement: it is where a
    goroutine stands between the call of [wg.Wait()] and its return. *)
Inductive action : Type :=
| AEmit (e : event)
| AWgAdd (delta : nat)
| AGo (w : worker)
| AWgWait
| AWgBlocked
| AFatalf (msg : string)
| ARunOrDie (lec : leaderelection.LeaderElectionConfig ConfigMapLock (list action))
| APanic (msg : string).

Abbreviation LeaderElectionConfig :=
  (leaderelection.LeaderElectionConfig ConfigMapLock (list action)).

(** The concurrency width every controller is run with. *)
Definition workers : Z := 5.

(** The body of the loop over the registry in [run], for one entry. *)
Definition loop_body (opts : options.ControllerOptions) (ctx : Ctx) (stopCh : chan)
    (entry : string * (Ctx → Interface)) : list action :=
  let '(n, fn) := entry in
  (* only run a controller if it's been enabled *)
  if negb (util.Contains (options.EnabledControllers opts) n) then
    [AEmit (EvInfo 0 (n +:+ " controller is not in list of controllers to enable, so not enabling it"))]
  (* don't run clusterissuers controller if scoped to a single namespace *)
  else if bool_decide (controller.Namespace ctx ≠ "")
          && bool_decide (n = clusterissuers.ControllerName) then
    [AEmit (EvInfo 0 "Skipping ClusterIssuer controller as cert-manager is scoped to a single namespace")]
  else
    [AWgAdd 1; AGo (WController n (fn ctx) stopCh)].

(** The closure [run] of [Run]; [opts], [ctx] and [stopCh] are captured,
    the argument is ignored (it is named [_] in the source). *)
Definition run (opts : options.ControllerOptions) (ctx : Ctx) (stopCh : chan)
    (arg : chan) : list action :=
  AEmit (EvEnterRun arg) ::
  AWgAdd 1 ::
  AGo (WMetrics stopCh) ::
  flat_map (loop_body opts ctx stopCh) range_Known
  ++ [AEmit (EvInfo 4 "Starting shared informer factory");
      AEmit (EvFactoryStart SharedInformerFactory stopCh);
      AEmit (EvFactoryStart KubeSharedInformerFactory stopCh);
      AWgWait;
      AFatalf "Control loops exited"].

Definition startLeaderElection (opts : options.ControllerOptions)
    (leaderElectionClient : Clientset)
    (recorder : controller.EventRecorder Clientset)
    (run : chan → list action) : list action :=
  (* Identity used to distinguish between multiple controller manager instances *)
  match Hostname with
  | Err err => [AFatalf ("error getting hostname: " +:+ err)]
  | Ok id =>
      (* Lock required for leader election *)
      let rl :=
        {| resourcelock.ConfigMapMeta :=
             {| resourcelock.Namespace := options.LeaderElectionNamespace opts;
                resourcelock.Name := "cert-manager-controller" |};
           resourcelock.Client := CoreV1 leaderElectionClient;
           resourcelock.LockConfig :=
             {| resourcelock.Identity := id +:+ "-external-cert-manager-controller";
                resourcelock.EventRecorder := recorder |} |} in
      (* Try and become the leader and start controller manager loops *)
      [ARunOrDie
         {| leaderelection.Lock := rl;
            leaderelection.LeaseDuration := options.LeaderElectionLeaseDuration opts;
            leaderelection.RenewDeadline := options.LeaderElectionRenewDeadline opts;
            leaderelection.RetryPeriod := options.LeaderElectionRetryPeriod opts;
            leaderelection.Callbacks :=
              {| leaderelection.OnStartedLeading := run;
                 leaderelection.OnStoppedLeading := [AFatalf "leaderelection lost"] |} |}]
  end.

(** [glog.Fatalf(err.Error())] logs the text of the error. *)
Definition Run (opts : options.ControllerOptions) (stopCh : chan) : list action :=
  let '(tr, r) := buildControllerContext opts in
  (AEmit <$> tr) ++
  match r with
  | Err err => [AFatalf err]
  | Ok (ctx, kubeCfg) =>
      let run := run opts ctx stopCh in
      if negb (options.LeaderElect opts) then
        run stopCh
      else
        let r := kubernetes_NewForConfig (AddUserAgent kubeCfg "leader-election") in
        AEmit (EvNewClient LeaderElectionClient (is_ok r)) ::
        match r with
        | Err err => [AFatalf ("error creating leader election client: " +:+ err)]
        | Ok leaderElectionClient =>
            startLeaderElection opts leaderElectionClient (controller.Recorder ctx) run
            ++ [APanic "unreachable"]
        end
  end.

(** ** The process as a transition system *)

Inductive wstatus : Type :=
| Registered     (* the go statement has run, the goroutine has not *)
| Running        (* inside fn(workers, stopCh) or metrics.Default.Start *)
| Returned.      (* the call returned nil and wg.Done() ran *)

(** The leader elector behind [leaderelection.RunOrDie].
    Modelled from the spec: the states Standby, Acquiring, Leading and Lost
    of the Leader Election Coordinator; the library is not part of the
    repository. *)
Inductive elector : Type :=
| Standby
| Acquiring (lec : LeaderElectionConfig)
| Leading (lec : LeaderElectionConfig)
| Lost.

Record state : Type := {
  st_exit : option string;            (* the process has terminated, with this log line *)
  st_log : list event;                (* what has happened, oldest first *)
  st_main : list action;              (* the rest of the goroutine of Run *)
  st_leading : option (list action);  (* the rest of the goroutine of OnStartedLeading *)
  st_workers : list (worker * wstatus);
  st_wg : nat;                        (* the counter of the WaitGroup *)
  st_elector : elector
}.

Definition add_log (es : list event) (s : state) : state :=
  {| st_exit := st_exit s; st_log := st_log s ++ es; st_main := st_main s;
     st_leading := st_leading s; st_workers := st_workers s; st_wg := st_wg s;
     st_elector := st_elector s |}.

Definition set_exit (msg : string) (s : state) : state :=
  {| st_exit := Some msg; st_log := st_log s; st_main := st_main s;
     st_leading := st_leading s; st_workers := st_workers s; st_wg := st_wg s;
     st_elector := st_elector s |}.

Definition set_main (p : list action) (s : state) : state :=
  {| st_exit := st_exit s; st_log := st_log s; st_main := p;
     st_leading := st_leading s; st_workers := st_workers s; st_wg := st_wg s;
     st_elector := st_elector s |}.

Definition set_leading (p : option (list action)) (s : state) : state :=
  {| st_exit := st_exit s; st_log := st_log s; st_main := st_main s;
     st_leading := p; st_workers := st_workers s; st_wg := st_wg s;
     st_elector := st_elector s |}.

Definition set_workers (ws : list (worker * wstatus)) (s : state) : state :=
  {| st_exit := st_exit s; st_log := st_log s; st_main := st_main s;
     st_leading := st_leading s; st_workers := ws; st_wg := st_wg s;
     st_elector := st_elector s |}.

Definition set_wg (n : nat) (s : state) : state :=
  {| st_exit := st_exit s; st_log := st_log s; st_main := st_main s;
     st_leading := st_leading s; st_workers := st_workers s; st_wg := n;
     st_elector := st_elector s |}.

Definition set_elector (e : elector) (s : state) : state :=
  {| st_exit := st_exit s; st_log := st_log s; st_main := st_main s;
     st_leading := st_leading s; st_workers := st_workers s; st_wg := st_wg s;
     st_elector := e |}.

(** What a statement writes to the log when it runs. *)
Definition emits (a : action) : list event :=
  match a with
  | AEmit e => [e]
  | AGo w => [EvGo (wid_of w)]
  | AWgWait => [EvWgWait]
  | AFatalf msg => [EvFatal msg]
  | APanic msg => [EvPanic msg]
  | AWgAdd _ | AWgBlocked | ARunOrDie _ => []
  end.

(** The effect of a statement on everything but its own goroutine's code;
    [None] when the goroutine cannot move. *)
Definition effect (a : action) (s : state) : option state :=
  let s := add_log (emits a) s in
  match a with
  | AEmit _ | AWgWait => Some s
  | AWgAdd delta => Some (set_wg (st_wg s + delta) s)
  | AGo w => Some (set_workers (st_workers s ++ [(w, Registered)]) s)
  | AWgBlocked => if decide (st_wg s = 0) then Some s else None
  | AFatalf msg | APanic msg => Some (set_exit msg s)
  | ARunOrDie lec =>
      match st_elector s with
      | Standby => Some (set_elector (Acquiring lec) s)
      | _ => None
      end
  end.

(** What is left of the goroutine after the statement: [wg.Wait()] leaves
    it blocked, [RunOrDie] never returns to its caller. *)
Definition continue (a : action) (rest : list action) : list action :=
  match a with
  | AWgWait => AWgBlocked :: rest
  | ARunOrDie _ => a :: rest
  | _ => rest
  end.

(** The choices of the scheduler, of the runnables and of the elector. *)
Inductive label : Type :=
| LMain                                       (* the goroutine of Run moves *)
| LLeading                                    (* the goroutine of OnStartedLeading moves *)
| LWorkerStart (i : nat)                      (* worker i is scheduled and makes its call *)
| LWorkerReturn (i : nat) (err : option error) (* the call of worker i returns err *)
| LAcquire                                    (* the lease is acquired *)
| LLose.                                      (* the lease is lost *)

(** The body of the goroutine of a worker, up to its blocking call:
    [glog.Infof("Starting %s controller", n); workers := 5;
     err := fn(workers, stopCh)], and [metrics.Default.Start(stopCh)]. *)
Definition start_events (w : worker) : list event :=
  match w with
  | WMetrics stop => [EvMetricsStart stop]
  | WController n _ stop =>
      [EvInfo 0 ("Starting " +:+ n +:+ " controller"); EvInvoke n workers stop]
  end.

(** [defer wg.Done()]: a counter that would go negative panics. *)
Definition wg_Done (s : state) : state :=
  match st_wg s with
  | O => set_exit "sync: negative WaitGroup counter"
           (add_log [EvPanic "sync: negative WaitGroup counter"] s)
  | S n => set_wg n s
  end.

(** The rest of the goroutine of worker [i] once its call has returned
    [err]: [if err != nil { glog.Fatalf(...) }], then the deferred
    [wg.Done()].  [metrics.Default.Start] returns no value. *)
Definition worker_returns (i : nat) (w : worker) (err : option error) (s : state)
  : option state :=
  let s := add_log [EvReturn (wid_of w) err] s in
  match w, err with
  | WController n _ _, Some e =>
      let msg := "error running " +:+ n +:+ " controller: " +:+ e in
      Some (set_exit msg (add_log [EvFatal msg] s))
  | WMetrics _, Some _ => None
  | _, None => Some (wg_Done (set_workers (<[i := (w, Returned)]> (st_workers s)) s))
  end.

Definition step (l : label) (s : state) : option state :=
  match st_exit s with
  | Some _ => None
  | None =>
      match l with
      | LMain =>
          match st_main s with
          | a :: rest => s' ← effect a s; Some (set_main (continue a rest) s')
          | [] => None
          end
      | LLeading =>
          match st_leading s with
          | Some (a :: rest) =>
              s' ← effect a s; Some (set_leading (Some (continue a rest)) s')
          | _ => None
          end
      | LWorkerStart i =>
          match st_workers s !! i with
          | Some (w, Registered) =>
              Some (set_workers (<[i := (w, Running)]> (st_workers s))
                      (add_log (start_events w) s))
          | _ => None
          end
      | LWorkerReturn i err =>
          match st_workers s !! i with
          | Some (w, Running) => worker_returns i w err s
          | _ => None
          end
      | LAcquire =>
          match st_elector s with
          | Acquiring lec =>
              let started :=
                leaderelection.OnStartedLeading (leaderelection.Callbacks lec) LeaderStop in
              Some (set_leading (Some started)
                      (set_elector (Leading lec) (add_log [EvStartedLeading] s)))
          | _ => None
          end
      | LLose =>
          match st_elector s with
          | Acquiring lec | Leading lec =>
              let stopped :=
                leaderelection.OnStoppedLeading (leaderelection.Callbacks lec) in
              Some (set_main (stopped ++ st_main s)
                      (set_elector Lost (add_log [EvStoppedLeading] s)))
          | _ => None
          end
      end
  end.

Fixpoint exec (ls : list label) (s : state) : option state :=
  match ls with
  | [] => Some s
  | l :: ls => s' ← step l s; exec ls s'
  end.

(** The process at the call of [Run(opts, stopCh)]. *)
Definition init (opts : options.ControllerOptions) : state :=
  {| st_exit := None; st_log := []; st_main := Run opts StopCh;
     st_leading := None; st_workers := []; st_wg := 0; st_elector := Standby |}.

Definition reachable (opts : options.ControllerOptions) (s : state) : Prop :=
  ∃ ls, exec ls (init opts) = Some s.

(** ** Observations on code and on states *)

Global Instance wstatus_eq_dec : EqDecision wstatus.
Proof. solve_decision. Defined.

(** The goroutines a piece of code registers. *)
Definition gos (p : list action) : list worker :=
  flat_map (λ a, match a with AGo w => [w] | _ => [] end) p.

(** The events only the body of [run] writes. *)
Definition is_run (e : event) : bool :=
  match e with
  | EvEnterRun _ | EvGo _ | EvFactoryStart _ _ | EvWgWait => true
  | _ => false
  end.

Definition run_events (p : list action) : list event :=
  filter (λ e, is_run e) (flat_map emits p).

(** The workers whose goroutine has not finished. *)
Definition active (ws : list (worker * wstatus)) : nat :=
  length (filter (λ x, x.2 ≠ Returned) ws).

(** The names of the controllers among the registered workers. *)
Definition controllers_of (ws : list (worker * wstatus)) : list string :=
  omap (λ x, match wid_of x.1 with Controller n => Some n | Metrics => None end) ws.

(** A registry name the loop of [run] lets through. *)
Definition selected (opts : options.ControllerOptions) (n : string) : Prop :=
  n ∈ options.EnabledControllers opts
  ∧ ¬ (options.Namespace opts ≠ "" ∧ n = clusterissuers.ControllerName).

Global Instance selected_dec opts n : Decision (selected opts n).
Proof. unfold selected. apply _. Defined.

(** The workers the loop registers: one for every selected entry, in the
    order of the iteration. *)
Definition registered_by (opts : options.ControllerOptions) (ctx : Ctx) (stop : chan)
    (kn : list (string * (Ctx → Interface))) : list worker :=
  (λ x, WController x.1 (x.2 ctx) stop) <$> filter (λ x, selected opts x.1) kn.

(** The events of the supervisor that are registrations. *)
Definition is_registration (e : event) : Prop :=
  match e with
  | EvEnterRun _ | EvGo _ => True
  | _ => False
  end.

Definition is_go (e : event) : Prop :=
  match e with EvGo _ => True | _ => False end.

Global Instance is_go_dec e : Decision (is_go e).
Proof. destruct e; simpl; apply _. Defined.

(** What the supervisor writes after its loop, in the order of the source. *)
Definition warmup_and_wait : list event :=
  [EvFactoryStart SharedInformerFactory StopCh;
   EvFactoryStart KubeSharedInformerFactory StopCh;
   EvWgWait].

(** ** The discipline of the code

    The shape the code of a goroutine keeps while it runs: every go
    statement is covered by a [wg.Add] before it and a [wg.Wait] after it,
    nothing waits after a fatal exit, and only the main goroutine hands
    over to the elector. *)

Definition is_wait (a : action) : Prop :=
  match a with AWgWait | AWgBlocked => True | _ => False end.

Global Instance is_wait_dec a : Decision (is_wait a).
Proof. destruct a; simpl; apply _. Defined.

Definition has_wait (p : list action) : Prop := Exists is_wait p.

(** The events the straight-line code writes through [AEmit]. *)
Definition plain (e : event) : Prop :=
  match e with
  | EvInfo _ _ | EvKubeConfig _ _ | EvNewClient _ _ | EvParseQuantity _ _ _
  | EvEnterRun _ | EvFactoryStart _ _ => True
  | _ => False
  end.

Definition exited_msg : string := "Control loops exited".
Definition lost_msg : string := "leaderelection lost".

(** [disc k p]: the code [p] keeps the WaitGroup discipline when [k]
    calls of [wg.Add(1)] are not yet matched by a go statement. *)
Fixpoint disc (k : nat) (p : list action) : Prop :=
  match p with
  | [] => True
  | a :: p =>
      match a with
      | AEmit e => plain e ∧ disc k p
      | AWgAdd delta => disc (k + delta) p
      | AGo _ => 0 < k ∧ has_wait p ∧ disc (k - 1) p
      | AWgWait | AWgBlocked => disc k p
      | AFatalf _ | APanic _ => ¬ has_wait p ∧ disc k p
      | ARunOrDie _ => False
      end
  end.

(** The callbacks [startLeaderElection] registers, [T] being the code of
    [run]. *)
Definition lec_ok (T : list action) (lec : LeaderElectionConfig) : Prop :=
  leaderelection.OnStartedLeading (leaderelection.Callbacks lec) LeaderStop = T
  ∧ leaderelection.OnStoppedLeading (leaderelection.Callbacks lec) = [AFatalf lost_msg].

(** A goroutine that only logs, exits or enters the elector. *)
Definition quiet_action (T : list action) (a : action) : Prop :=
  match a with
  | AEmit e => plain e ∧ is_run e = false
  | AFatalf msg => msg ≠ exited_msg
  | APanic _ => True
  | ARunOrDie lec => lec_ok T lec
  | _ => False
  end.

Definition quiet (T : list action) (p : list action) : Prop :=
  Forall (quiet_action T) p.

(** Whether [Run] reaches [leaderelection.RunOrDie]. *)
Definition elects (opts : options.ControllerOptions) : bool :=
  match buildControllerContext opts with
  | (_, Ok (_, kubeCfg)) =>
      options.LeaderElect opts
      && is_ok (kubernetes_NewForConfig (AddUserAgent kubeCfg "leader-election"))
      && is_ok Hostname
  | (_, Err _) => false
  end.

(** The code of [run] as the elector would start it. *)
Definition run_text (opts : options.ControllerOptions) : list action :=
  match buildControllerContext opts with
  | (_, Ok (ctx, _)) => run opts ctx StopCh LeaderStop
  | (_, Err _) => []
  end.

(** The code of the goroutine that runs the supervisor, if any does: the
    goroutine of [OnStartedLeading] under leader election, the main
    goroutine otherwise. *)
Definition sup_text (opts : options.ControllerOptions) : list action :=
  if elects opts then run_text opts else Run opts StopCh.

(** What is left of it. *)
Definition sup (opts : options.ControllerOptions) (s : state) : list action :=
  if elects opts then default (run_text opts) (st_leading s) else st_main s.

Definition elector_inv (opts : options.ControllerOptions) (s : state) : Prop :=
  match st_elector s with
  | Standby => st_leading s = None
  | Acquiring lec => lec_ok (run_text opts) lec ∧ st_leading s = None
  | Leading lec => lec_ok (run_text opts) lec ∧ is_Some (st_leading s)
  | Lost => is_Some (st_exit s) ∨ ∃ rest, st_main s = AFatalf lost_msg :: rest
  end.

(** The events a worker's call logs, with the width and the code that
    registered it. *)
Definition invoke_ok (opts : options.ControllerOptions) (e : event) : Prop :=
  match e with
  | EvInvoke n w stop =>
      w = workers ∧ ∃ fn, WController n fn stop ∈ gos (sup_text opts)
  | _ => True
  end.

(** The invariant of the goroutine that runs the supervisor, [pend] being
    what is left of its code: the supervisor events of the log followed by
    those still to come are those of the code, and so for the registered
    workers; the counter of the WaitGroup covers the unfinished workers;
    while a worker is unfinished a wait is still to come; and the exit of
    the control loops is logged only once they have all returned. *)
Definition Core (opts : options.ControllerOptions) (pend : list action) (s : state) : Prop :=
  filter (λ e, is_run e) (st_log s) ++ run_events pend = run_events (sup_text opts)
  ∧ (st_workers s).*1 ++ gos pend = gos (sup_text opts)
  ∧ (∃ k, st_wg s = active (st_workers s) + k ∧ disc k pend)
  ∧ (0 < active (st_workers s) → has_wait pend)
  ∧ (EvFatal exited_msg ∈ st_log s → is_Some (st_exit s) ∧ active (st_workers s) = 0)
  ∧ Forall (invoke_ok opts) (st_log s).

(** The invariant of the process. *)
Definition Inv (opts : options.ControllerOptions) (s : state) : Prop :=
  Core opts (sup opts s) s
  ∧ (if elects opts
     then quiet (run_text opts) (st_main s) ∧ elector_inv opts s
     else st_leading s = None ∧ st_elector s = Standby).

(** What [Run] does once [buildControllerContext] has returned. *)
Definition after_build (opts : options.ControllerOptions) : list action :=
  drop (length (buildControllerContext opts).1) (Run opts StopCh).

(** The process is still inside [buildControllerContext]: the log is a
    prefix of what that function writes, and nothing else exists yet. *)
Definition booting (opts : options.ControllerOptions) (s : state) : Prop :=
  ∃ past rest,
    (buildControllerContext opts).1 = past ++ rest
    ∧ st_log s = past
    ∧ st_main s = (AEmit <$> rest) ++ after_build opts
    ∧ st_workers s = [] ∧ st_leading s = None ∧ st_elector s = Standby.

(** The events of the leader-election path of [Run]. *)
Definition elector_event (e : event) : Prop :=
  match e with
  | EvNewClient LeaderElectionClient _ | EvStartedLeading | EvStoppedLeading => True
  | _ => False
  end.

(** A statement that writes no event of the leader-election path. *)
Definition silent (a : action) : Prop := Forall (λ e, ¬ elector_event e) (emits a).

(** The start of one of the two factories, on whatever channel. *)
Definition is_start (f : factory_kind) (e : event) : Prop :=
  match e with
  | EvFactoryStart f' _ => f' = f
  | _ => False
  end.

Global Instance is_start_dec f e : Decision (is_start f e).
Proof. destruct e; simpl; apply _. Defined.

(** Fatal-on-exit as the specification words it (P2): whenever the call
    of a worker returns, with an error or without, while another worker is
    still running, the process terminates on that step. *)
Definition fatal_on_any_return (opts : options.ControllerOptions) : Prop :=
  ∀ s i j err s',
    reachable opts s →
    i ≠ j →
    (∃ w, st_workers s !! j = Some (w, Running)) →
    step (LWorkerReturn i err) s = Some s' →
    is_Some (st_exit s').

(** ** Further observations *)

(** The fields [buildControllerContext] parses before [f]. *)
Definition fields_before (f : QField) : list QField :=
  match f with
  | RequestCPU => []
  | RequestMemory => [RequestCPU]
  | LimitsCPU => [RequestCPU; RequestMemory]
  | LimitsMemory => [RequestCPU; RequestMemory; LimitsCPU]
  end.

(** A call into a collaborator that returned an error. *)
Definition failed (e : event) : bool :=
  match e with
  | EvKubeConfig _ ok | EvNewClient _ ok | EvParseQuantity _ _ ok => negb ok
  | _ => false
  end.

(** The goroutine that runs the supervisor, as the scheduler names it. *)
Definition supervisor (opts : options.ControllerOptions) : label :=
  if elects opts then LLeading else LMain.

(** The fatal messages of [Run] and [startLeaderElection] themselves. *)
Definition startup_error (opts : options.ControllerOptions) (m : string) : Prop :=
  match buildControllerContext opts with
  | (_, Err err) => m = err
  | (_, Ok (_, kubeCfg)) =>
      options.LeaderElect opts = true
      ∧ match kubernetes_NewForConfig (AddUserAgent kubeCfg "leader-election") with
        | Err err => m = "error creating leader election client: " +:+ err
        | Ok _ =>
            match Hostname with
            | Err err => m = "error getting hostname: " +:+ err
            | Ok _ => False
            end
        end
  end.

(** Why a process in state [s] can have exited with the line [m]. *)
Definition exit_reason (opts : options.ControllerOptions) (s : state) (m : string) : Prop :=
  startup_error opts m
  ∨ (∃ n e, n ∈ controllers_of (st_workers s)
            ∧ m = "error running " +:+ n +:+ " controller: " +:+ e)
  ∨ (m = exited_msg ∧ Forall (λ x, x.2 = Returned) (st_workers s))
  ∨ (m = lost_msg ∧ st_elector s = Lost).

(** The configuration [Run] hands to [leaderelection.RunOrDie]. *)
Definition elector_config (opts : options.ControllerOptions)
    (lec : LeaderElectionConfig) : Prop :=
  ∃ tr ctx kubeCfg leaderElectionClient,
    buildControllerContext opts = (tr, Ok (ctx, kubeCfg))
    ∧ options.LeaderElect opts = true
    ∧ kubernetes_NewForConfig (AddUserAgent kubeCfg "leader-election")
      = Ok leaderElectionClient
    ∧ startLeaderElection opts leaderElectionClient (controller.Recorder ctx)
        (run opts ctx StopCh)
      = [ARunOrDie lec].

(** Code in which [panic] is only written after a call that does not
    return: a fatal exit or the elector. *)
Fixpoint guarded (p : list action) : Prop :=
  match p with
  | [] => True
  | a :: p =>
      match a with
      | APanic _ => False
      | AFatalf _ | ARunOrDie _ => True
      | _ => guarded p
      end
  end.

(** The statements of the code of [Run] and [run]: a fatal message is one
    of the start-up errors or the exit of the control loops, what they log
    is plain, the elector gets the configuration of [startLeaderElection]. *)
Definition known_action (opts : options.ControllerOptions) (a : action) : Prop :=
  match a with
  | AEmit e => plain e
  | AFatalf m => startup_error opts m ∨ m = exited_msg
  | ARunOrDie lec => elector_config opts lec
  | _ => True
  end.

(** What the log may hold besides plain events. *)
Definition known_event (e : event) : Prop :=
  match e with
  | EvPanic _ => False
  | _ => True
  end.

(** [bal k p]: with [k] calls of [wg.Add(1)] not yet matched by a go
    statement, the code [p] matches each of them before it waits, and after
    the wait it only exits. *)
Fixpoint bal (k : nat) (p : list action) : Prop :=
  match p with
  | [] => True
  | a :: p =>
      match a with
      | AWgAdd delta => bal (k + delta) p
      | AGo _ => 0 < k ∧ bal (k - 1) p
      | AWgWait | AWgBlocked => k = 0 ∧ p = [AFatalf exited_msg]
      | _ => bal k p
      end
  end.

(** The second invariant of the process: it has not panicked, an exit is
    the last line of the log and has a reason, the code left to the
    goroutines is known and guarded (after the loss of the lease the main
    goroutine has the callback [OnStoppedLeading] in front of it), the elector runs with the configuration
    of [startLeaderElection] and has logged the start of leadership, and the
    counter of the WaitGroup is balanced. *)
Definition Inv2 (opts : options.ControllerOptions) (s : state) : Prop :=
  Forall known_event (st_log s)
  ∧ (∀ m, st_exit s = Some m → last (st_log s) = Some (EvFatal m) ∧ exit_reason opts s m)
  ∧ (st_exit s = None → guarded (st_main s) ∧ guarded (default [] (st_leading s)))
  ∧ (st_exit s = None →
     Forall (known_action opts)
       (match st_elector s with Lost => tail (st_main s) | _ => st_main s end))
  ∧ Forall (known_action opts) (default [] (st_leading s))
  ∧ (∀ lec, st_elector s = Acquiring lec ∨ st_elector s = Leading lec →
       elector_config opts lec)
  ∧ (is_Some (st_leading s) → EvStartedLeading ∈ st_log s)
  ∧ (st_elector s = Lost → EvStoppedLeading ∈ st_log s)
  ∧ (∃ k, st_wg s = active (st_workers s) + k ∧ bal k (sup opts s)).


(** What the code [p] still has to write to the log through [AEmit]. *)
Definition to_log (p : list action) : list event :=
  flat_map (λ a, match a with AEmit e => [e] | _ => [] end) p.

(** The third invariant: every line the code of the supervisor logs has
    been logged or is still to come, and none is to come once [wg.Wait()]
    has been called. *)
Definition Inv3 (opts : options.ControllerOptions) (s : state) : Prop :=
  (∀ e, e ∈ to_log (sup_text opts) → e ∈ to_log (sup opts s) ∨ e ∈ st_log s)
  ∧ (EvWgWait ∈ st_log s → to_log (sup opts s) = []).
End App.

(** ** A concrete deployment

    Three registered controllers, as in the scenarios of the specification,
    and collaborators simple enough to run. *)
Module Scenario.

Definition parse_quantity (s : string) : result string :=
  match s with
  | String c _ =>
      if bool_decide (("0" ≤ String c "")%string ∧ (String c "" ≤ "9")%string)
      then Ok s
      else Err "quantities must match the regular expression"
  | EmptyString => Err "empty quantity"
  end.

Definition registry : gmap string (controller.Context string string string → string) :=
  list_to_map [("certificates", λ _, "certificates-loop");
               ("clusterissuers", λ _, "clusterissuers-loop");
               ("issuers", λ _, "issuers-loop")].

Definition handles : Handles :=
  {| Config := string; Clientset := string; CMClientset := string;
     CoreV1Client := string; Quantity := string; Interface := string |}.

#[local] Existing Instance handles.

Definition world : Collaborators :=
  {| KubeConfig := λ host : string,
       if bool_decide (host = "unreachable") then Err "no route to host" else Ok host;
     clientset_NewForConfig := λ cfg : string, Ok cfg;
     kubernetes_NewForConfig := λ cfg : string, Ok cfg;
     AddUserAgent := λ cfg ua : string, cfg +:+ "/" +:+ ua;
     CoreV1 := λ c : string, c;
     ParseQuantity := parse_quantity;
     RecursiveNameservers := ["8.8.8.8:53"; "8.8.4.4:53"];
     Hostname := Ok "node-1";
     Known := registry;
     range_Known := map_to_list registry |}.

(** Scenario A: two controllers enabled, cluster-wide, no leader election. *)
Definition opts : options.ControllerOptions :=
  {| options.APIServerHost := "";
     options.Namespace := "";
     options.EnabledControllers := ["issuers"; "certificates"];
     options.LeaderElect := false;
     options.LeaderElectionNamespace := "kube-system";
     options.LeaderElectionLeaseDuration := (60 * Second)%Z;
     options.LeaderElectionRenewDeadline := (40 * Second)%Z;
     options.LeaderElectionRetryPeriod := (15 * Second)%Z;
     options.ACMEHTTP01SolverImage := "acmesolver";
     options.ACMEHTTP01SolverResourceRequestCPU := "10m";
     options.ACMEHTTP01SolverResourceRequestMemory := "64Mi";
     options.ACMEHTTP01SolverResourceLimitsCPU := "10m";
     options.ACMEHTTP01SolverResourceLimitsMemory := "64Mi";
     options.DNS01RecursiveNameservers := [];
     options.DNS01RecursiveNameserversOnly := false;
     options.ClusterIssuerAmbientCredentials := true;
     options.IssuerAmbientCredentials := false;
     options.ClusterResourceNamespace := "kube-system";
     options.RenewBeforeExpiryDuration := 0%Z;
     options.DefaultIssuerName := "";
     options.DefaultIssuerKind := "Issuer";
     options.DefaultAutoCertificateAnnotations := ["kubernetes.io/tls-acme"];
     options.DefaultACMEIssuerChallengeType := "http01";
     options.DefaultACMEIssuerDNS01ProviderName := "";
     options.EnableCertificateOwnerRef := false |}.

Definition with_namespace (ns : string) (enabled : list string)
    (o : options.ControllerOptions) : options.ControllerOptions :=
  {| options.APIServerHost := options.APIServerHost o;
     options.Namespace := ns;
     options.EnabledControllers := enabled;
     options.LeaderElect := options.LeaderElect o;
     options.LeaderElectionNamespace := options.LeaderElectionNamespace o;
     options.LeaderElectionLeaseDuration := options.LeaderElectionLeaseDuration o;
     options.LeaderElectionRenewDeadline := options.LeaderElectionRenewDeadline o;
     options.LeaderElectionRetryPeriod := options.LeaderElectionRetryPeriod o;
     options.ACMEHTTP01SolverImage := options.ACMEHTTP01SolverImage o;
     options.ACMEHTTP01SolverResourceRequestCPU := options.ACMEHTTP01SolverResourceRequestCPU o;
     options.ACMEHTTP01SolverResourceRequestMemory := options.ACMEHTTP01SolverResourceRequestMemory o;
     options.ACMEHTTP01SolverResourceLimitsCPU := options.ACMEHTTP01SolverResourceLimitsCPU o;
     options.ACMEHTTP01SolverResourceLimitsMemory := options.ACMEHTTP01SolverResourceLimitsMemory o;
     options.DNS01RecursiveNameservers := options.DNS01RecursiveNameservers o;
     options.DNS01RecursiveNameserversOnly := options.DNS01RecursiveNameserversOnly o;
     options.ClusterIssuerAmbientCredentials := options.ClusterIssuerAmbientCredentials o;
     options.IssuerAmbientCredentials := options.IssuerAmbientCredentials o;
     options.ClusterResourceNamespace := options.ClusterResourceNamespace o;
     options.RenewBeforeExpiryDuration := options.RenewBeforeExpiryDuration o;
     options.DefaultIssuerName := options.DefaultIssuerName o;
     options.DefaultIssuerKind := options.DefaultIssuerKind o;
     options.DefaultAutoCertificateAnnotations := options.DefaultAutoCertificateAnnotations o;
     options.DefaultACMEIssuerChallengeType := options.DefaultACMEIssuerChallengeType o;
     options.DefaultACMEIssuerDNS01ProviderName := options.DefaultACMEIssuerDNS01ProviderName o;
     options.EnableCertificateOwnerRef := options.EnableCertificateOwnerRef o |}.

Definition with_request_cpu (q : string)
    (o : options.ControllerOptions) : options.ControllerOptions :=
  {| options.APIServerHost := options.APIServerHost o;
     options.Namespace := options.Namespace o;
     options.EnabledControllers := options.EnabledControllers o;
     options.LeaderElect := options.LeaderElect o;
     options.LeaderElectionNamespace := options.LeaderElectionNamespace o;
     options.LeaderElectionLeaseDuration := options.LeaderElectionLeaseDuration o;
     options.LeaderElectionRenewDeadline := options.LeaderElectionRenewDeadline o;
     options.LeaderElectionRetryPeriod := options.LeaderElectionRetryPeriod o;
     options.ACMEHTTP01SolverImage := options.ACMEHTTP01SolverImage o;
     options.ACMEHTTP01SolverResourceRequestCPU := q;
     options.ACMEHTTP01SolverResourceRequestMemory := options.ACMEHTTP01SolverResourceRequestMemory o;
     options.ACMEHTTP01SolverResourceLimitsCPU := options.ACMEHTTP01SolverResourceLimitsCPU o;
     options.ACMEHTTP01SolverResourceLimitsMemory := options.ACMEHTTP01SolverResourceLimitsMemory o;
     options.DNS01RecursiveNameservers := options.DNS01RecursiveNameservers o;
     options.DNS01RecursiveNameserversOnly := options.DNS01RecursiveNameserversOnly o;
     options.ClusterIssuerAmbientCredentials := options.ClusterIssuerAmbientCredentials o;
     options.IssuerAmbientCredentials := options.IssuerAmbientCredentials o;
     options.ClusterResourceNamespace := options.ClusterResourceNamespace o;
     options.RenewBeforeExpiryDuration := options.RenewBeforeExpiryDuration o;
     options.DefaultIssuerName := options.DefaultIssuerName o;
     options.DefaultIssuerKind := options.DefaultIssuerKind o;
     options.DefaultAutoCertificateAnnotations := options.DefaultAutoCertificateAnnotations o;
     options.DefaultACMEIssuerChallengeType := options.DefaultACMEIssuerChallengeType o;
     options.DefaultACMEIssuerDNS01ProviderName := options.DefaultACMEIssuerDNS01ProviderName o;
     options.EnableCertificateOwnerRef := options.EnableCertificateOwnerRef o |}.

Definition with_leader_election (o : options.ControllerOptions)
    : options.ControllerOptions :=
  {| options.APIServerHost := options.APIServerHost o;
     options.Namespace := options.Namespace o;
     options.EnabledControllers := options.EnabledControllers o;
     options.LeaderElect := true;
     options.LeaderElectionNamespace := options.LeaderElectionNamespace o;
     options.LeaderElectionLeaseDuration := options.LeaderElectionLeaseDuration o;
     options.LeaderElectionRenewDeadline := options.LeaderElectionRenewDeadline o;
     options.LeaderElectionRetryPeriod := options.LeaderElectionRetryPeriod o;
     options.ACMEHTTP01SolverImage := options.ACMEHTTP01SolverImage o;
     options.ACMEHTTP01SolverResourceRequestCPU := options.ACMEHTTP01SolverResourceRequestCPU o;
     options.ACMEHTTP01SolverResourceRequestMemory := options.ACMEHTTP01SolverResourceRequestMemory o;
     options.ACMEHTTP01SolverResourceLimitsCPU := options.ACMEHTTP01SolverResourceLimitsCPU o;
     options.ACMEHTTP01SolverResourceLimitsMemory := options.ACMEHTTP01SolverResourceLimitsMemory o;
     options.DNS01RecursiveNameservers := options.DNS01RecursiveNameservers o;
     options.DNS01RecursiveNameserversOnly := options.DNS01RecursiveNameserversOnly o;
     options.ClusterIssuerAmbientCredentials := options.ClusterIssuerAmbientCredentials o;
     options.IssuerAmbientCredentials := options.IssuerAmbientCredentials o;
     options.ClusterResourceNamespace := options.ClusterResourceNamespace o;
     options.RenewBeforeExpiryDuration := options.RenewBeforeExpiryDuration o;
     options.DefaultIssuerName := options.DefaultIssuerName o;
     options.DefaultIssuerKind := options.DefaultIssuerKind o;
     options.DefaultAutoCertificateAnnotations := options.DefaultAutoCertificateAnnotations o;
     options.DefaultACMEIssuerChallengeType := options.DefaultACMEIssuerChallengeType o;
     options.DefaultACMEIssuerDNS01ProviderName := options.DefaultACMEIssuerDNS01ProviderName o;
     options.EnableCertificateOwnerRef := options.EnableCertificateOwnerRef o |}.

(** Scenario B: scoped to a namespace, with clusterissuers enabled. *)
Definition opts_team_a : options.ControllerOptions :=
  with_namespace "team-a" ["issuers"; "certificates"; "clusterissuers"] opts.

(** Scenario C: a request CPU that is no quantity. *)
Definition opts_bad_cpu : options.ControllerOptions :=
  with_request_cpu "not-a-quantity" opts.

(** Leader election switched on. *)
Definition opts_elect : options.ControllerOptions := with_leader_election opts.

(** What [buildControllerContext] is expected to write and to return in
    scenario A. *)
Definition expected_trace : list event :=
  [EvKubeConfig "" true;
   EvNewClient InternalGroupClient true;
   EvNewClient KubernetesClient true;
   EvInfo 0 "Using the following nameservers for DNS01 checks: [8.8.8.8:53 8.8.4.4:53]";
   EvParseQuantity RequestCPU "10m" true;
   EvParseQuantity RequestMemory "64Mi" true;
   EvParseQuantity LimitsCPU "10m" true;
   EvParseQuantity LimitsMemory "64Mi" true;
   EvInfo 4 "Creating event broadcaster"].

Definition expected_context : controller.Context string string string :=
  {| controller.Client := "";
     controller.CMClient := "";
     controller.Recorder :=
       {| controller.Component := "cert-manager";
          controller.sinkClient := "";
          controller.sinkNamespace := "" |};
     controller.KubeSharedInformerFactory :=
       {| controller.informerClient := "";
          controller.defaultResync := 30000000000%Z;
          controller.informerNamespace := "" |};
     controller.SharedInformerFactory :=
       {| controller.informerClient := "";
          controller.defaultResync := 30000000000%Z;
          controller.informerNamespace := "" |};
     controller.Namespace := "";
     controller.ACMEOptions_ :=
       {| controller.HTTP01SolverImage := "acmesolver";
          controller.HTTP01SolverResourceRequestCPU := "10m";
          controller.HTTP01SolverResourceRequestMemory := "64Mi";
          controller.HTTP01SolverResourceLimitsCPU := "10m";
          controller.HTTP01SolverResourceLimitsMemory := "64Mi";
          controller.DNS01CheckAuthoritative := true;
          controller.DNS01Nameservers := ["8.8.8.8:53"; "8.8.4.4:53"] |};
     controller.IssuerOptions_ :=
       {| controller.ClusterIssuerAmbientCredentials := true;
          controller.IssuerAmbientCredentials := false;
          controller.ClusterResourceNamespace := "kube-system";
          controller.RenewBeforeExpiryDuration := 0%Z |};
     controller.IngressShimOptions_ :=
       {| controller.DefaultIssuerName := "";
          controller.DefaultIssuerKind := "Issuer";
          controller.DefaultAutoCertificateAnnotations := ["kubernetes.io/tls-acme"];
          controller.DefaultACMEIssuerChallengeType := "http01";
          controller.DefaultACMEIssuerDNS01ProviderName := "" |};
     controller.CertificateOptions_ := {| controller.EnableOwnerRef := false |} |}.

(** The state the process is in after the schedule [ls]. *)
Definition after (o : options.ControllerOptions) (ls : list label) : state :=
  default (init (W:=world) o) (exec ls (init (W:=world) o)).

(** Whether the schedule [ls] can be run. *)
Definition runs (o : options.ControllerOptions) (ls : list label) : bool :=
  bool_decide (is_Some (exec ls (init (W:=world) o))).

(** The main goroutine has registered the metrics exporter and the two
    enabled controllers (17 statements); the workers are numbered in the
    order of registration: 0 the exporter, 1 certificates, 2 issuers. *)
Definition registered : list label := replicate 17 LMain.

(** Both controllers are inside their calls. *)
Definition both_running : list label := registered ++ [LWorkerStart 1; LWorkerStart 2].

(** The main goroutine has started the shared informer factory. *)
Definition warming : list label := replicate 19 LMain.

(** The main goroutine has called [wg.Wait()]. *)
Definition waiting : list label := replicate 21 LMain.

(** Under leader election: the main goroutine has entered the elector
    (11 statements) and the lease has been acquired. *)
Definition leading : list label := replicate 11 LMain ++ [LAcquire].

(** A host whose API server cannot be reached, with a bad request CPU on
    top. *)
Definition with_host (h : string) (o : options.ControllerOptions)
    : options.ControllerOptions :=
  {| options.APIServerHost := h;
     options.Namespace := options.Namespace o;
     options.EnabledControllers := options.EnabledControllers o;
     options.LeaderElect := options.LeaderElect o;
     options.LeaderElectionNamespace := options.LeaderElectionNamespace o;
     options.LeaderElectionLeaseDuration := options.LeaderElectionLeaseDuration o;
     options.LeaderElectionRenewDeadline := options.LeaderElectionRenewDeadline o;
     options.LeaderElectionRetryPeriod := options.LeaderElectionRetryPeriod o;
     options.ACMEHTTP01SolverImage := options.ACMEHTTP01SolverImage o;
     options.ACMEHTTP01SolverResourceRequestCPU := options.ACMEHTTP01SolverResourceRequestCPU o;
     options.ACMEHTTP01SolverResourceRequestMemory := options.ACMEHTTP01SolverResourceRequestMemory o;
     options.ACMEHTTP01SolverResourceLimitsCPU := options.ACMEHTTP01SolverResourceLimitsCPU o;
     options.ACMEHTTP01SolverResourceLimitsMemory := options.ACMEHTTP01SolverResourceLimitsMemory o;
     options.DNS01RecursiveNameservers := options.DNS01RecursiveNameservers o;
     options.DNS01RecursiveNameserversOnly := options.DNS01RecursiveNameserversOnly o;
     options.ClusterIssuerAmbientCredentials := options.ClusterIssuerAmbientCredentials o;
     options.IssuerAmbientCredentials := options.IssuerAmbientCredentials o;
     options.ClusterResourceNamespace := options.ClusterResourceNamespace o;
     options.RenewBeforeExpiryDuration := options.RenewBeforeExpiryDuration o;
     options.DefaultIssuerName := options.DefaultIssuerName o;
     options.DefaultIssuerKind := options.DefaultIssuerKind o;
     options.DefaultAutoCertificateAnnotations := options.DefaultAutoCertificateAnnotations o;
     options.DefaultACMEIssuerChallengeType := options.DefaultACMEIssuerChallengeType o;
     options.DefaultACMEIssuerDNS01ProviderName := options.DefaultACMEIssuerDNS01ProviderName o;
     options.EnableCertificateOwnerRef := options.EnableCertificateOwnerRef o |}.

Definition opts_unreachable : options.ControllerOptions :=
  with_host "unreachable" opts_bad_cpu.

(** Under leader election, the goroutine of [OnStartedLeading] has called
    [wg.Wait()] (12 statements), the three workers have run and returned. *)
Definition led_and_returned : list label :=
  leading ++ replicate 12 LLeading
  ++ [LWorkerStart 0; LWorkerStart 1; LWorkerStart 2;
      LWorkerReturn 0 None; LWorkerReturn 1 None; LWorkerReturn 2 None].


(** The configuration the elector is expected to run with under
    [opts_elect]. *)
Definition expected_election
  : leaderelection.LeaderElectionConfig
      (resourcelock.ConfigMapLock CoreV1Client (controller.EventRecorder Clientset))
      (list action) :=
  {| leaderelection.Lock :=
       {| resourcelock.ConfigMapMeta :=
            {| resourcelock.Namespace := "kube-system";
               resourcelock.Name := "cert-manager-controller" |};
          resourcelock.Client := "/leader-election";
          resourcelock.LockConfig :=
            {| resourcelock.Identity := "node-1-external-cert-manager-controller";
               resourcelock.EventRecorder := controller.Recorder expected_context |} |};
     leaderelection.LeaseDuration := (60 * Second)%Z;
     leaderelection.RenewDeadline := (40 * Second)%Z;
     leaderelection.RetryPeriod := (15 * Second)%Z;
     leaderelection.Callbacks :=
       {| leaderelection.OnStartedLeading := run (W:=world) opts_elect expected_context StopCh;
          leaderelection.OnStoppedLeading := [AFatalf "leaderelection lost"] |} |}.
End Scenario.

(** * Properties of [buildControllerContext] *)

(** Case analysis along the early returns of [buildControllerContext]. *)
Ltac bcc opts :=
  unfold buildControllerContext, parse, orErrorf, call, bind, emit, ret;
  destruct (KubeConfig (options.APIServerHost opts)) as [kubeCfg|?]; simpl;
  [ destruct (clientset_NewForConfig kubeCfg) as [intcl|?]; simpl;
    [ destruct (kubernetes_NewForConfig kubeCfg) as [cl|?]; simpl;
      [ destruct (ParseQuantity (options.ACMEHTTP01SolverResourceRequestCPU opts)) as [q1|?] eqn:Hq1; simpl;
        [ destruct (ParseQuantity (options.ACMEHTTP01SolverResourceRequestMemory opts)) as [q2|?] eqn:Hq2; simpl;
          [ destruct (ParseQuantity (options.ACMEHTTP01SolverResourceLimitsCPU opts)) as [q3|?] eqn:Hq3; simpl;
            [ destruct (ParseQuantity (options.ACMEHTTP01SolverResourceLimitsMemory opts)) as [q4|?] eqn:Hq4; simpl
            | ]
          | ]
        | ]
      | ]
    | ]
  | ].

Section BuildControllerContext.

Context {HS : Handles} {W : Collaborators}.

(** A context that was built carries the namespace of the options. *)
Lemma buildControllerContext_Namespace opts tr ctx cfg :
  buildControllerContext opts = (tr, Ok (ctx, cfg)) →
  controller.Namespace ctx = options.Namespace opts.
Proof. bcc opts; intros H; simplify_eq; done. Qed.

(** (C9) The nameservers of a context that was built are the package
    default when the options configure none, and the configured list
    otherwise. *)
Theorem C9_nameservers_default opts tr ctx cfg :
  buildControllerContext opts = (tr, Ok (ctx, cfg)) →
  (options.DNS01RecursiveNameservers opts = [] →
     controller.DNS01Nameservers (controller.ACMEOptions_ ctx) = RecursiveNameservers)
  ∧ (options.DNS01RecursiveNameservers opts ≠ [] →
     controller.DNS01Nameservers (controller.ACMEOptions_ ctx)
     = options.DNS01RecursiveNameservers opts).
Proof.
  bcc opts; intros H; simplify_eq; simpl.
  destruct (options.DNS01RecursiveNameservers opts) as [|n ns]; simpl; split; congruence.
Qed.

(** (C10) The authoritative-check flag of a context that was built is the
    negation of the recursive-only option. *)
Theorem C10_check_authoritative opts tr ctx cfg :
  buildControllerContext opts = (tr, Ok (ctx, cfg)) →
  controller.DNS01CheckAuthoritative (controller.ACMEOptions_ ctx)
  = negb (options.DNS01RecursiveNameserversOnly opts).
Proof. bcc opts; intros H; simplify_eq; done. Qed.

End BuildControllerContext.

(** * The code of the supervisor *)

Section Text.

Context {HS : Handles} {W : Collaborators}.

Lemma run_events_cons a p :
  run_events (a :: p) = filter (λ e, is_run e) (emits a) ++ run_events p.
Proof. unfold run_events. simpl. by rewrite filter_app. Qed.

Lemma run_events_app p q : run_events (p ++ q) = run_events p ++ run_events q.
Proof. unfold run_events. by rewrite flat_map_app, filter_app. Qed.

Lemma gos_app p q : gos (p ++ q) = gos p ++ gos q.
Proof. unfold gos. by rewrite flat_map_app. Qed.

Lemma has_wait_app p q : has_wait (p ++ q) ↔ has_wait p ∨ has_wait q.
Proof. unfold has_wait. apply Exists_app. Qed.

Lemma has_wait_cons a p : has_wait (a :: p) ↔ is_wait a ∨ has_wait p.
Proof. unfold has_wait. apply Exists_cons. Qed.

(** Code that only writes plain events keeps every discipline. *)
Lemma run_events_emit es :
  Forall (λ e, is_run e = false) es → run_events (AEmit <$> es) = [].
Proof.
  induction 1 as [|e es He _ IH]; [done|].
  rewrite fmap_cons, run_events_cons, IH. simpl.
  rewrite filter_cons_False; [done|]. rewrite He. simpl. tauto.
Qed.

Lemma gos_emit es : gos (AEmit <$> es) = [].
Proof. induction es as [|e es IH]; [done|]. done. Qed.

Lemma disc_emit es k p :
  Forall plain es → disc k p → disc k ((AEmit <$> es) ++ p).
Proof. induction 1 as [|e es He _ IH]; simpl; auto. Qed.

End Text.

Section TextOfRun.

Context {HS : Handles} {W : Collaborators}.

(** What [buildControllerContext] writes is plain, and none of it belongs
    to [run]. *)
Lemma buildControllerContext_trace opts :
  Forall (λ e, plain e ∧ is_run e = false) (buildControllerContext opts).1.
Proof. bcc opts; repeat constructor. Qed.

Lemma buildControllerContext_trace_plain opts :
  Forall plain (buildControllerContext opts).1.
Proof. eapply Forall_impl; [apply buildControllerContext_trace|]. by intros ? [? ?]. Qed.

Lemma buildControllerContext_trace_not_run opts :
  Forall (λ e, is_run e = false) (buildControllerContext opts).1.
Proof. eapply Forall_impl; [apply buildControllerContext_trace|]. by intros ? [? ?]. Qed.

(** A context is built only after the four quantities have parsed. *)
Lemma buildControllerContext_parsed opts tr ctx cfg f :
  buildControllerContext opts = (tr, Ok (ctx, cfg)) →
  EvParseQuantity f (field_value opts f) true ∈ tr.
Proof.
  bcc opts; intros H; simplify_eq.
  destruct f; simpl; rewrite ?Hq1, ?Hq2, ?Hq3, ?Hq4; simpl; set_solver.
Qed.

(** An unparsable quantity makes [buildControllerContext] fail. *)
Lemma buildControllerContext_unparsable opts f e :
  ParseQuantity (field_value opts f) = Err e →
  ∃ msg, (buildControllerContext opts).2 = Err msg.
Proof.
  intros Hf.
  bcc opts; eauto; destruct f; simpl in Hf; congruence.
Qed.

(** A failed parse is what the error reports, by the name of its field. *)
Lemma buildControllerContext_names_field opts f v :
  EvParseQuantity f v false ∈ (buildControllerContext opts).1 →
  ∃ e, ParseQuantity (field_value opts f) = Err e
       ∧ (buildControllerContext opts).2
         = Err ("error parsing " +:+ field_name f +:+ ": " +:+ e).
Proof.
  bcc opts; rewrite ?Hq1, ?Hq2, ?Hq3, ?Hq4; simpl; intros Hin;
    repeat (apply elem_of_cons in Hin as [Hin|Hin]; [simplify_eq|]);
    try (by apply elem_of_nil in Hin);
    simpl; eauto.
Qed.

(** ** The loop over the registry *)

Lemma loop_body_selected opts ctx stop n fn :
  controller.Namespace ctx = options.Namespace opts →
  selected opts n →
  loop_body opts ctx stop (n, fn) = [AWgAdd 1; AGo (WController n (fn ctx) stop)].
Proof.
  intros Hns [Hen Hci]. unfold loop_body, util.Contains.
  rewrite bool_decide_eq_true_2 by done. simpl. rewrite Hns.
  destruct (bool_decide (options.Namespace opts ≠ "")) eqn:E1;
    destruct (bool_decide (n = clusterissuers.ControllerName)) eqn:E2; simpl; try done.
  apply bool_decide_eq_true in E1, E2. tauto.
Qed.

Lemma loop_body_skipped opts ctx stop n fn :
  controller.Namespace ctx = options.Namespace opts →
  ¬ selected opts n →
  ∃ msg, loop_body opts ctx stop (n, fn) = [AEmit (EvInfo 0 msg)].
Proof.
  intros Hns Hsel. unfold loop_body, util.Contains.
  destruct (bool_decide (n ∈ options.EnabledControllers opts)) eqn:E0; simpl; [|eauto].
  rewrite Hns.
  destruct (bool_decide (options.Namespace opts ≠ "")) eqn:E1;
    destruct (bool_decide (n = clusterissuers.ControllerName)) eqn:E2; simpl; eauto;
    exfalso; apply Hsel; split;
    try (by apply bool_decide_eq_true in E0);
    intros [? ?];
    try (apply bool_decide_eq_false in E1; tauto);
    try (apply bool_decide_eq_false in E2; tauto).
Qed.

Lemma gos_loop opts ctx stop kn :
  controller.Namespace ctx = options.Namespace opts →
  gos (flat_map (loop_body opts ctx stop) kn) = registered_by opts ctx stop kn.
Proof.
  intros Hns. unfold registered_by.
  induction kn as [|[n fn] kn IH]; [done|].
  cbn [flat_map]. rewrite gos_app, IH.
  destruct (decide (selected opts n)) as [Hs|Hs].
  - rewrite filter_cons_True by done.
    by rewrite (loop_body_selected _ _ _ _ _ Hns Hs).
  - rewrite filter_cons_False by done.
    by destruct (loop_body_skipped _ _ stop _ fn Hns Hs) as [msg ->].
Qed.

Lemma run_events_loop opts ctx stop kn :
  controller.Namespace ctx = options.Namespace opts →
  run_events (flat_map (loop_body opts ctx stop) kn)
  = (λ w, EvGo (wid_of w)) <$> registered_by opts ctx stop kn.
Proof.
  intros Hns. unfold registered_by.
  induction kn as [|[n fn] kn IH]; [done|].
  cbn [flat_map]. rewrite run_events_app, IH.
  destruct (decide (selected opts n)) as [Hs|Hs].
  - rewrite filter_cons_True by done.
    by rewrite (loop_body_selected _ _ _ _ _ Hns Hs).
  - rewrite filter_cons_False by done.
    by destruct (loop_body_skipped _ _ stop _ fn Hns Hs) as [msg ->].
Qed.

Lemma disc_loop opts ctx stop kn k q :
  controller.Namespace ctx = options.Namespace opts →
  has_wait q → disc k q →
  disc k (flat_map (loop_body opts ctx stop) kn ++ q).
Proof.
  intros Hns Hw Hq.
  induction kn as [|[n fn] kn IH]; [done|].
  cbn [flat_map]. rewrite <- app_assoc.
  destruct (decide (selected opts n)) as [Hs|Hs].
  - rewrite (loop_body_selected _ _ _ _ _ Hns Hs). simpl.
    split; [lia|]. split; [apply has_wait_app; by right|].
    by replace (k + 1 - 1) with k by lia.
  - destruct (loop_body_skipped _ _ stop _ fn Hns Hs) as [msg ->]. simpl. done.
Qed.

(** ** The closure [run] *)

Lemma gos_run opts ctx stop arg :
  controller.Namespace ctx = options.Namespace opts →
  gos (run opts ctx stop arg) = WMetrics stop :: registered_by opts ctx stop range_Known.
Proof.
  intros Hns. unfold run.
  change (gos (?a :: ?b :: AGo ?w :: ?p)) with (w :: gos p).
  rewrite gos_app, (gos_loop _ _ _ _ Hns). simpl. by rewrite app_nil_r.
Qed.

Lemma run_events_run opts ctx stop arg :
  controller.Namespace ctx = options.Namespace opts →
  run_events (run opts ctx stop arg)
  = EvEnterRun arg :: ((λ w, EvGo (wid_of w)) <$> gos (run opts ctx stop arg))
    ++ [EvFactoryStart SharedInformerFactory stop;
        EvFactoryStart KubeSharedInformerFactory stop; EvWgWait].
Proof.
  intros Hns. rewrite (gos_run _ _ _ _ Hns). unfold run.
  rewrite !run_events_cons, run_events_app, (run_events_loop _ _ _ _ Hns). done.
Qed.

Lemma disc_run opts ctx stop arg :
  controller.Namespace ctx = options.Namespace opts →
  disc 0 (run opts ctx stop arg).
Proof.
  intros Hns. unfold run. simpl. split; [done|]. split; [lia|].
  split.
  - apply has_wait_app. right. unfold has_wait. rewrite !Exists_cons. simpl. tauto.
  - apply (disc_loop _ _ _ _ _ _ Hns).
    + unfold has_wait. rewrite !Exists_cons. simpl. tauto.
    + simpl. repeat split; try done. unfold has_wait. rewrite Exists_nil. tauto.
Qed.

End TextOfRun.

(** * The invariant *)

Section Invariant.

Context {HS : Handles} {W : Collaborators}.

Ltac run_cases opts Hb :=
  unfold sup_text, elects, run_text, Run, startLeaderElection;
  destruct (buildControllerContext opts) as [tr [[ctx kubeCfg]|err]] eqn:Hb;
  [ destruct (options.LeaderElect opts) eqn:HLE; cbn [negb andb is_ok];
    [ destruct (kubernetes_NewForConfig (AddUserAgent kubeCfg "leader-election"))
        as [lecl|err]; cbn [negb andb is_ok];
      [ destruct Hostname as [id|err]; cbn [negb andb is_ok] | ]
    | ]
  | cbn [negb andb is_ok] ].

Lemma sup_init opts : sup opts (init opts) = sup_text opts.
Proof. unfold sup, sup_text, init. simpl. by destruct (elects opts). Qed.

Lemma disc_sup_text opts : disc 0 (sup_text opts).
Proof.
  pose proof (buildControllerContext_trace_plain opts) as Hpl.
  run_cases opts Hb; simpl in Hpl;
    try (apply disc_emit; [done|]);
    try (apply disc_run; by eapply buildControllerContext_Namespace);
    try (apply (disc_run opts ctx StopCh LeaderStop);
         by eapply buildControllerContext_Namespace);
    simpl; unfold has_wait; rewrite ?Exists_cons, ?Exists_nil; simpl; tauto.
Qed.

Lemma quiet_Run opts :
  elects opts = true → quiet (run_text opts) (Run opts StopCh).
Proof.
  pose proof (buildControllerContext_trace opts) as Htr.
  run_cases opts Hb; try done; intros _; simpl in Htr.
  unfold quiet. apply Forall_app. split.
  - apply Forall_fmap. eapply Forall_impl; [exact Htr|]. by intros e [? ?].
  - repeat constructor; done.
Qed.

(** The supervisor either never runs, or its code registers the metrics
    exporter and the selected controllers, starts the two factories and
    waits. *)
Lemma sup_text_cases opts :
  (gos (sup_text opts) = [] ∧ run_events (sup_text opts) = [])
  ∨ (∃ tr ctx cfg arg,
       buildControllerContext opts = (tr, Ok (ctx, cfg))
       ∧ gos (sup_text opts) = WMetrics StopCh :: registered_by opts ctx StopCh range_Known
       ∧ run_events (sup_text opts)
         = EvEnterRun arg :: ((λ w, EvGo (wid_of w)) <$> gos (sup_text opts))
           ++ warmup_and_wait
       ∧ (options.LeaderElect opts = false → arg = StopCh)).
Proof.
  pose proof (buildControllerContext_trace_not_run opts) as Htr.
  run_cases opts Hb; simpl in Htr.
  - right. exists tr, ctx, kubeCfg, LeaderStop.
    pose proof (buildControllerContext_Namespace _ _ _ _ Hb) as Hns.
    split; [done|]. split; [by apply gos_run|].
    split; [by apply run_events_run|done].
  - left. rewrite gos_app, run_events_app, gos_emit, (run_events_emit _ Htr). done.
  - left. rewrite gos_app, run_events_app, gos_emit, (run_events_emit _ Htr). done.
  - right. exists tr, ctx, kubeCfg, StopCh.
    pose proof (buildControllerContext_Namespace _ _ _ _ Hb) as Hns.
    rewrite gos_app, run_events_app, gos_emit, (run_events_emit _ Htr).
    split; [done|]. split; [by apply gos_run|].
    split; [by apply run_events_run|done].
  - left. rewrite gos_app, run_events_app, gos_emit, (run_events_emit _ Htr). done.
Qed.

End Invariant.

Section Preservation.

Context {HS : Handles} {W : Collaborators}.

Implicit Types (s : state) (ws : list (worker * wstatus)) (p pend : list action).

Lemma filter_not_run es :
  Forall (λ e, is_run e = false) es → filter (λ e, is_run e) es = [].
Proof.
  induction 1 as [|e es He _ IH]; [done|].
  rewrite filter_cons_False; [done|]. rewrite He. simpl. tauto.
Qed.

Lemma active_app ws ws' : active (ws ++ ws') = active ws + active ws'.
Proof. unfold active. by rewrite filter_app, length_app. Qed.

Lemma active_update ws i x y :
  ws !! i = Some x →
  active (<[i:=y]> ws) + (if decide (x.2 ≠ Returned) then 1 else 0)
  = active ws + (if decide (y.2 ≠ Returned) then 1 else 0).
Proof.
  revert i. induction ws as [|z ws IH]; intros i Hi; [done|].
  destruct i as [|i]; simpl in Hi.
  - simplify_eq. simpl. unfold active. rewrite !filter_cons.
    repeat case_decide; simpl; lia.
  - specialize (IH i Hi). simpl. unfold active in *. rewrite !filter_cons.
    destruct (decide (z.2 ≠ Returned)); simpl; lia.
Qed.

Lemma active_start ws i w :
  ws !! i = Some (w, Registered) → active (<[i:=(w, Running)]> ws) = active ws.
Proof.
  intros Hi. pose proof (active_update ws i _ (w, Running) Hi) as H.
  simpl in H. repeat case_decide; try done; lia.
Qed.

Lemma active_return ws i w :
  ws !! i = Some (w, Running) → S (active (<[i:=(w, Returned)]> ws)) = active ws.
Proof.
  intros Hi. pose proof (active_update ws i _ (w, Returned) Hi) as H.
  simpl in H. repeat case_decide; try done; lia.
Qed.

Lemma fst_update ws i w st st' :
  ws !! i = Some (w, st) → (<[i:=(w, st')]> ws).*1 = ws.*1.
Proof.
  intros Hi. rewrite list_fmap_insert. simpl.
  apply list_insert_id. by rewrite list_lookup_fmap, Hi.
Qed.

(** The invariant of the supervisor reads the log, the workers, the
    counter, and whether the process has exited. *)
Lemma Core_ext opts pend s s' :
  Core opts pend s →
  st_log s' = st_log s → st_workers s' = st_workers s → st_wg s' = st_wg s →
  (is_Some (st_exit s) → is_Some (st_exit s')) →
  Core opts pend s'.
Proof.
  intros (H1 & H2 & H3 & H4 & H5 & H6) El Ew Eg Ex.
  unfold Core. rewrite El, Ew, Eg. repeat split; try done.
  - apply Ex, H5, H. - by apply H5.
Qed.

(** Events of the other goroutines leave it alone. *)
Lemma Core_log opts pend s es :
  Core opts pend s →
  st_exit s = None →
  Forall (λ e, is_run e = false ∧ e ≠ EvFatal exited_msg ∧ invoke_ok opts e) es →
  Core opts pend (add_log es s).
Proof.
  intros (H1 & H2 & H3 & H4 & H5 & H6) Hex Hes.
  unfold Core. simpl. repeat split; try done.
  - rewrite filter_app, (filter_not_run es); [by rewrite app_nil_r|].
    eapply Forall_impl; [exact Hes|]. by intros e (? & _).
  - apply elem_of_app in H as [H|H].
    + apply H5 in H as [[? ?] _]. congruence.
    + rewrite Forall_forall in Hes. apply Hes in H as (_ & Hne & _). done.
  - apply elem_of_app in H as [H|H].
    + by apply H5.
    + rewrite Forall_forall in Hes. apply Hes in H as (_ & Hne & _). done.
  - apply Forall_app. split; [done|].
    eapply Forall_impl; [exact Hes|]. by intros e (_ & _ & ?).
Qed.

(** Every registered worker was registered by the code of the supervisor. *)
Lemma Core_worker_in_text opts pend s i w st :
  Core opts pend s → st_workers s !! i = Some (w, st) → w ∈ gos (sup_text opts).
Proof.
  intros (_ & H2 & _) Hi. rewrite <- H2. apply elem_of_app. left.
  apply list_elem_of_fmap. exists (w, st). split; [done|].
  by eapply list_elem_of_lookup_2.
Qed.

Lemma Core_start opts pend s i w :
  Core opts pend s →
  st_exit s = None →
  st_workers s !! i = Some (w, Registered) →
  Core opts pend
    (set_workers (<[i:=(w, Running)]> (st_workers s)) (add_log (start_events w) s)).
Proof.
  intros HC Hex Hi.
  pose proof (Core_worker_in_text _ _ _ _ _ _ HC Hi) as Hw.
  assert (Core opts pend (add_log (start_events w) s)) as (H1 & H2 & H3 & H4 & H5 & H6).
  { apply Core_log; [done..|]. destruct w; repeat constructor; try done; simpl; eauto. }
  simpl in *. unfold Core. simpl.
  rewrite (fst_update _ _ _ _ _ Hi), (active_start _ _ _ Hi). done.
Qed.

Lemma Core_return opts pend s i w err s' :
  Core opts pend s →
  st_exit s = None →
  st_workers s !! i = Some (w, Running) →
  worker_returns i w err s = Some s' →
  Core opts pend s'.
Proof.
  intros HC Hex Hi Hs'.
  assert (Core opts pend (add_log [EvReturn (wid_of w) err] s)) as HC1.
  { apply Core_log; [done..|]. repeat constructor; done. }
  unfold worker_returns in Hs'.
  destruct err as [e|].
  - destruct w as [|n fn stop]; [done|]. simplify_eq.
    eapply Core_ext; [apply Core_log; [exact HC1|done|]|done..|simpl; eauto].
    repeat constructor; done.
  - assert (s' = wg_Done (set_workers (<[i:=(w, Returned)]> (st_workers s))
                            (add_log [EvReturn (wid_of w) None] s))) as ->.
    { destruct w; by simplify_eq. }
    clear Hs'. destruct HC1 as (H1 & H2 & (k & Hk & Hd) & H4 & H5 & H6).
    simpl in *. pose proof (active_return _ _ _ Hi) as Ha.
    unfold wg_Done. simpl. destruct (st_wg s) as [|n] eqn:Hwg; [lia|].
    unfold Core. simpl. rewrite (fst_update _ _ _ _ _ Hi).
    repeat split; try done.
    + exists k. split; [lia|done].
    + intros ?. apply H4. lia.
    + by apply H5.
    + apply H5 in H as [_ ?]. lia.
Qed.

(** A statement of the supervisor's own goroutine. *)
Lemma Core_pop opts a rest s s' :
  Core opts (a :: rest) s →
  st_exit s = None →
  effect a s = Some s' →
  Core opts (continue a rest) s'.
Proof.
  intros (H1 & H2 & (k & Hk & Hd) & H4 & H5 & H6) Hex Hs'.
  assert (¬ EvFatal exited_msg ∈ st_log s) as Hnf.
  { intros H. apply H5 in H as [[? ?] _]. congruence. }
  assert (∀ e, e ≠ EvFatal exited_msg → ¬ EvFatal exited_msg ∈ st_log s ++ [e]) as Hnf1.
  { intros e He H. apply elem_of_app in H as [H|H]; [done|].
    apply list_elem_of_singleton in H. done. }
  rewrite run_events_cons in H1. rewrite has_wait_cons in H4.
  destruct a; simpl in *; simplify_eq; unfold Core; simpl.
  - (* AEmit *)
    destruct Hd as [Hpl Hd].
    rewrite filter_app, <- app_assoc. split_and!.
    + done.
    + done.
    + eauto.
    + intros Hact. destruct (H4 Hact) as [[]|?]; done.
    + intros H. exfalso. revert H. apply Hnf1. by destruct e.
    + apply Forall_app. split; [done|]. repeat constructor. by destruct e.
  - (* AWgAdd *)
    rewrite app_nil_r. split_and!.
    + done.
    + done.
    + exists (k + delta). split; [lia|done].
    + intros Hact. destruct (H4 Hact) as [[]|?]; done.
    + intros H. by apply Hnf in H.
    + done.
  - (* AGo *)
    destruct Hd as (Hk0 & Hw & Hd).
    rewrite filter_app, <- app_assoc, fmap_app, <- app_assoc, active_app. split_and!.
    + done.
    + done.
    + exists (k - 1). split; [|done]. unfold active at 2. simpl. lia.
    + done.
    + intros H. exfalso. revert H. by apply Hnf1.
    + apply Forall_app. split; [done|]. repeat constructor.
  - (* AWgWait *)
    rewrite filter_app, <- app_assoc. split_and!.
    + done.
    + done.
    + eauto.
    + intros _. apply has_wait_cons. by left.
    + intros H. exfalso. revert H. by apply Hnf1.
    + apply Forall_app. split; [done|]. repeat constructor.
  - (* AWgBlocked *)
    case_decide as Hz; [|done]. simplify_eq. simpl in *.
    rewrite app_nil_r. split_and!.
    + done.
    + done.
    + eauto.
    + intros ?; lia.
    + intros H. by apply Hnf in H.
    + done.
  - (* AFatalf *)
    destruct Hd as [Hnw Hd].
    assert (active (st_workers s) = 0) as Hz.
    { destruct (active (st_workers s)) eqn:E; [done|].
      destruct H4 as [[]|?]; [lia|done]. }
    rewrite filter_app, <- app_assoc. split_and!.
    + done.
    + done.
    + eauto.
    + intros ?; lia.
    + intros _. split; [eauto|done].
    + apply Forall_app. split; [done|]. repeat constructor.
  - (* ARunOrDie *) done.
  - (* APanic *)
    destruct Hd as [Hnw Hd].
    assert (active (st_workers s) = 0) as Hz.
    { destruct (active (st_workers s)) eqn:E; [done|].
      destruct H4 as [[]|?]; [lia|done]. }
    rewrite filter_app, <- app_assoc. split_and!.
    + done.
    + done.
    + eauto.
    + intros ?; lia.
    + intros _. split; [eauto|done].
    + apply Forall_app. split; [done|]. repeat constructor.
Qed.

End Preservation.

Section Steps.

Context {HS : Handles} {W : Collaborators}.

Implicit Types (s : state) (ws : list (worker * wstatus)) (p pend : list action).

Lemma effect_frame a s s1 :
  effect a s = Some s1 →
  st_main s1 = st_main s ∧ st_leading s1 = st_leading s
  ∧ ((∀ lec, a ≠ ARunOrDie lec) → st_elector s1 = st_elector s).
Proof.
  destruct a; simpl; intros H; simplify_eq; try done.
  - case_decide; by simplify_eq.
  - destruct (st_elector s); simplify_eq. split_and!; try done.
    intros Hn. by destruct (Hn lec).
Qed.

Lemma worker_returns_frame i w err s s' :
  worker_returns i w err s = Some s' →
  st_main s' = st_main s ∧ st_leading s' = st_leading s ∧ st_elector s' = st_elector s.
Proof.
  unfold worker_returns, wg_Done.
  destruct w, err; simpl; intros H; simplify_eq; try done;
    destruct (st_wg s); done.
Qed.

(** A statement of a quiet goroutine leaves the supervisor alone. *)
Lemma Core_quiet opts pend T a s s1 :
  Core opts pend s →
  st_exit s = None →
  quiet_action T a →
  effect a s = Some s1 →
  Core opts pend s1.
Proof.
  intros HC Hex Hq Hs1.
  destruct a; simpl in Hq, Hs1; simplify_eq; try done.
  - destruct Hq as [Hpl Hnr]. apply Core_log; [done..|].
    repeat constructor; try done; by destruct e.
  - eapply Core_ext; [apply (Core_log opts _ s [EvFatal msg]); [exact HC|done|]|done..|simpl; eauto].
    repeat constructor; try done. congruence.
  - destruct (st_elector s); simplify_eq.
    eapply Core_ext; [exact HC|simpl; by rewrite app_nil_r|done..].
  - eapply Core_ext; [apply (Core_log opts _ s [EvPanic msg]); [exact HC|done|]|done..|simpl; eauto].
    repeat constructor; done.
Qed.

Lemma disc_not_RunOrDie k a rest : disc k (a :: rest) → ∀ lec, a ≠ ARunOrDie lec.
Proof. intros Hd lec ->. done. Qed.

Lemma Inv_init opts : Inv opts (init opts).
Proof.
  unfold Inv. rewrite sup_init. split.
  - unfold Core. simpl. split_and!; try done.
    + exists 0. split; [done|apply disc_sup_text].
    + unfold active. simpl. lia.
    + intros H. by apply elem_of_nil in H.
  - destruct (elects opts) eqn:He; [|done].
    split; [by apply quiet_Run|done].
Qed.

Lemma Inv_step opts l s s' : Inv opts s → step l s = Some s' → Inv opts s'.
Proof.
  unfold Inv, sup, step. intros [HC HM] Hstep.
  destruct (st_exit s) eqn:Hex; [done|].
  destruct l.
  - (* the main goroutine *)
    destruct (st_main s) as [|a rest] eqn:Hmain; [done|].
    destruct (effect a s) as [s1|] eqn:Hs1; simpl in Hstep; simplify_eq.
    destruct (effect_frame _ _ _ Hs1) as (Em & El & Ee).
    destruct (elects opts) eqn:He; simpl.
    + destruct HM as [HQ HE]. apply Forall_cons in HQ as [Hq HQ].
      split.
      { eapply Core_ext; [eapply Core_quiet; [|done..]|done..].
        by rewrite El. }
      split.
      { destruct a; simpl in *; try done. by constructor. }
      unfold elector_inv in *. simpl.
      destruct a; simpl in Hq, Hs1; simplify_eq; try done; simpl.
      * destruct (st_elector s); simpl in *; try done.
        destruct HE as [[x Hx]|[r Hr]]; congruence.
      * destruct (st_elector s); simpl in *; try done. left; eauto.
      * destruct (st_elector s); simplify_eq. simpl. done.
      * destruct (st_elector s); simpl in *; try done. left; eauto.
    + destruct HM as [HL HE].
      assert (∀ lec, a ≠ ARunOrDie lec) as Hn.
      { destruct HC as (_ & _ & (k & _ & Hd) & _). by eapply disc_not_RunOrDie. }
      split.
      { eapply Core_ext; [eapply Core_pop; [exact HC|done..]|done..]. }
      split; [congruence|]. rewrite <- HE. by apply Ee.
  - (* the goroutine of OnStartedLeading *)
    destruct (st_leading s) as [[|a rest]|] eqn:Hlead; try done.
    destruct (effect a s) as [s1|] eqn:Hs1; simpl in Hstep; simplify_eq.
    destruct (effect_frame _ _ _ Hs1) as (Em & El & Ee).
    destruct (elects opts) eqn:He; simpl; [|by destruct HM].
    simpl in HC.
    assert (∀ lec, a ≠ ARunOrDie lec) as Hn.
    { destruct HC as (_ & _ & (k & _ & Hd) & _). by eapply disc_not_RunOrDie. }
    destruct HM as [HQ HE].
    split.
    { eapply Core_ext; [eapply Core_pop; [exact HC|done..]|done..]. }
    split; [by rewrite Em|].
    unfold elector_inv in *. simpl. rewrite (Ee Hn), Em.
    destruct (st_elector s).
    * congruence.
    * destruct HE as [_ HE]. congruence.
    * destruct HE as [HE _]. split; [done|eauto].
    * destruct HE as [[x Hx]|HE]; [congruence|by right].
  - (* a worker is scheduled *)
    destruct (st_workers s !! i) as [[w [| |]]|] eqn:Hi; simplify_eq.
    split.
    + simpl. by apply Core_start.
    + simpl. destruct (elects opts); [|done].
      destruct HM as [HQ HE]. split; [done|].
      unfold elector_inv in *. simpl. done.
  - (* the call of a worker returns *)
    destruct (st_workers s !! i) as [[w [| |]]|] eqn:Hi; simplify_eq.
    destruct (worker_returns_frame _ _ _ _ _ Hstep) as (Em & El & Ee).
    rewrite Em, El, Ee.
    split.
    + by eapply Core_return.
    + destruct (elects opts); [|done].
      destruct HM as [HQ HE]. split; [done|].
      unfold elector_inv in *. rewrite Em, El, Ee.
      destruct (st_elector s); try done.
      destruct HE as [[x Hx]|HE]; [congruence|by right].
  - (* the lease is acquired *)
    destruct (st_elector s) as [|lec|lec|] eqn:Hel; simplify_eq.
    destruct (elects opts) eqn:He; [|destruct HM; congruence].
    destruct HM as [HQ HE]. unfold elector_inv in HE. rewrite Hel in HE.
    destruct HE as [[Hstart Hstop] Hnone]. rewrite Hnone in HC. simpl in *.
    split; [|split; [done|]].
    + rewrite Hstart.
      eapply Core_ext; [apply (Core_log opts _ s [EvStartedLeading]); [exact HC|done|]|done..].
      repeat constructor; done.
    + unfold elector_inv. simpl. split; [done|eauto].
  - (* the lease is lost *)
    destruct (elects opts) eqn:He;
      [|destruct HM as [_ HE]; rewrite HE in Hstep; done].
    destruct HM as [HQ HE]. unfold elector_inv in HE.
    assert (∃ lec, lec_ok (run_text opts) lec ∧
              s' = set_main (leaderelection.OnStoppedLeading (leaderelection.Callbacks lec)
                               ++ st_main s)
                     (set_elector Lost (add_log [EvStoppedLeading] s)))
      as (lec & [Hstart Hstop] & ->).
    { destruct (st_elector s) as [|lec|lec|]; simplify_eq;
        exists lec; split; try done; by destruct HE. }
    rewrite Hstop. simpl.
    split; [|split].
    + eapply Core_ext; [apply (Core_log opts _ s [EvStoppedLeading]); [exact HC|done|]|done..].
      repeat constructor; done.
    + constructor; [done|exact HQ].
    + unfold elector_inv. simpl. right. eauto.
Qed.

(** A property every step preserves holds along every execution. *)
Lemma exec_invariant (P : state → Prop) :
  (∀ l s s', P s → step l s = Some s' → P s') →
  ∀ ls s s', P s → exec ls s = Some s' → P s'.
Proof.
  intros Hstep ls. induction ls as [|l ls IH]; intros s s' HP Hex; simpl in Hex.
  - by simplify_eq.
  - destruct (step l s) as [s1|] eqn:Hs1; simpl in Hex; [|done].
    eapply IH; [|done]. by eapply Hstep.
Qed.

Lemma Inv_exec opts ls s s' : Inv opts s → exec ls s = Some s' → Inv opts s'.
Proof. apply exec_invariant. intros l s0 s1. apply Inv_step. Qed.

Lemma Inv_reachable opts s : reachable opts s → Inv opts s.
Proof. intros [ls Hls]. eapply Inv_exec; [apply Inv_init|done]. Qed.

End Steps.

Section Boot.

Context {HS : Handles} {W : Collaborators}.

Implicit Types (s : state).

Lemma Run_after_build opts :
  Run opts StopCh = (AEmit <$> (buildControllerContext opts).1) ++ after_build opts.
Proof.
  unfold after_build, Run.
  destruct (buildControllerContext opts) as [tr r]. simpl.
  rewrite drop_app_length'; [done|by rewrite length_fmap].
Qed.

Lemma effect_log a s s1 : effect a s = Some s1 → st_log s1 = st_log s ++ emits a.
Proof.
  destruct a; simpl; intros H; simplify_eq; try done.
  - case_decide; by simplify_eq.
  - destruct (st_elector s); by simplify_eq.
Qed.

(** The log only grows. *)
Lemma step_log l s s' : step l s = Some s' → st_log s `prefix_of` st_log s'.
Proof.
  unfold step. intros Hstep.
  destruct (st_exit s); [done|].
  destruct l.
  - destruct (st_main s) as [|a rest]; [done|].
    destruct (effect a s) as [s1|] eqn:Hs1; simpl in Hstep; simplify_eq.
    simpl. rewrite (effect_log _ _ _ Hs1). by apply prefix_app_r.
  - destruct (st_leading s) as [[|a rest]|]; try done.
    destruct (effect a s) as [s1|] eqn:Hs1; simpl in Hstep; simplify_eq.
    simpl. rewrite (effect_log _ _ _ Hs1). by apply prefix_app_r.
  - destruct (st_workers s !! i) as [[w [| |]]|]; simplify_eq.
    simpl. by apply prefix_app_r.
  - destruct (st_workers s !! i) as [[w [| |]]|]; simplify_eq.
    unfold worker_returns, wg_Done in Hstep.
    destruct w, err; simplify_eq; simpl;
      try destruct (st_wg s); simpl;
      rewrite <- ?app_assoc; by apply prefix_app_r.
  - destruct (st_elector s); simplify_eq. simpl. by apply prefix_app_r.
  - destruct (st_elector s); simplify_eq; simpl; by apply prefix_app_r.
Qed.

Lemma booting_init opts : booting opts (init opts).
Proof.
  exists [], (buildControllerContext opts).1. simpl.
  split_and!; try done. apply Run_after_build.
Qed.

Lemma booting_step opts l s s' :
  booting opts s → step l s = Some s' →
  booting opts s' ∨ (buildControllerContext opts).1 `prefix_of` st_log s'.
Proof.
  intros (past & rest & Htr & Hlog & Hmain & Hws & Hlead & Hel) Hstep.
  destruct rest as [|e rest].
  { right. rewrite Htr, app_nil_r, <- Hlog. by eapply step_log. }
  left. unfold step in Hstep.
  destruct (st_exit s); [done|].
  destruct l; rewrite ?Hmain, ?Hws, ?Hlead, ?Hel, ?lookup_nil in Hstep;
    simpl in Hstep; simplify_eq.
  exists (st_log s ++ [e]), rest. simpl in *.
  split_and!; try done. by rewrite <- app_assoc.
Qed.

(** Until the log holds all that [buildControllerContext] writes, the
    process is inside that function. *)
Lemma booting_or_built opts s :
  reachable opts s →
  booting opts s ∨ (buildControllerContext opts).1 `prefix_of` st_log s.
Proof.
  intros [ls Hls].
  apply (exec_invariant
           (λ s, booting opts s ∨ (buildControllerContext opts).1 `prefix_of` st_log s))
    with ls (init opts); [|left; apply booting_init|exact Hls].
  intros l s0 s1 [H0|H0] Hs1; [by eapply booting_step|].
  right. etrans; [exact H0|by eapply step_log].
Qed.

(** The main goroutine runs through a block of logging statements. *)
Lemma exec_emits es s X :
  st_exit s = None →
  st_main s = (AEmit <$> es) ++ X →
  exec (replicate (length es) LMain) s = Some (set_main X (add_log es s)).
Proof.
  revert s. induction es as [|e es IH]; intros s Hex Hmain; simpl in *.
  - f_equal. destruct s; simpl in *. unfold set_main, add_log. simpl.
    by rewrite app_nil_r, Hmain.
  - unfold step. rewrite Hex, Hmain. simpl.
    rewrite (IH _); [|done..]. f_equal.
    unfold set_main, add_log. simpl. by rewrite <- app_assoc.
Qed.

Lemma exec_app ls1 ls2 s s1 :
  exec ls1 s = Some s1 → exec (ls1 ++ ls2) s = exec ls2 s1.
Proof.
  revert s. induction ls1 as [|l ls1 IH]; intros s Hex; simpl in *.
  - by simplify_eq.
  - destruct (step l s) as [s0|]; simpl in *; [by apply IH|done].
Qed.

End Boot.

Section NoElection.

Context {HS : Handles} {W : Collaborators}.

Implicit Types (s : state).

Lemma buildControllerContext_no_elector opts :
  Forall (λ e, ¬ elector_event e) (buildControllerContext opts).1.
Proof. bcc opts; repeat constructor; simpl; tauto. Qed.

Lemma loop_silent opts ctx stop kn :
  Forall silent (flat_map (loop_body opts ctx stop) kn).
Proof.
  induction kn as [|[n fn] kn IH]; [constructor|].
  cbn [flat_map]. apply Forall_app. split; [|done].
  unfold loop_body.
  destruct (negb _); [|destruct (_ && _)];
    repeat constructor; simpl; tauto.
Qed.

Lemma run_silent opts ctx stop arg : Forall silent (run opts ctx stop arg).
Proof.
  unfold run. repeat (apply Forall_cons; split; [repeat constructor; simpl; tauto|]).
  apply Forall_app. split; [apply loop_silent|].
  repeat constructor; simpl; tauto.
Qed.

Lemma Run_silent opts :
  options.LeaderElect opts = false → Forall silent (Run opts StopCh).
Proof.
  intros HLE. pose proof (buildControllerContext_no_elector opts) as Htr.
  unfold Run. destruct (buildControllerContext opts) as [tr [[ctx cfg]|err]];
    simpl in Htr; apply Forall_app; split.
  - apply Forall_fmap. eapply Forall_impl; [exact Htr|].
    intros e He. by repeat constructor.
  - rewrite HLE. simpl. apply run_silent.
  - apply Forall_fmap. eapply Forall_impl; [exact Htr|].
    intros e He. by repeat constructor.
  - repeat constructor. simpl. tauto.
Qed.

Lemma elects_LeaderElect opts : options.LeaderElect opts = false → elects opts = false.
Proof.
  intros HLE. unfold elects.
  destruct (buildControllerContext opts) as [tr [[ctx cfg]|err]]; [|done].
  by rewrite HLE.
Qed.

Lemma silent_step opts l s s' :
  elects opts = false → Inv opts s →
  Forall (λ e, ¬ elector_event e) (st_log s) ∧ Forall silent (st_main s) →
  step l s = Some s' →
  Forall (λ e, ¬ elector_event e) (st_log s') ∧ Forall silent (st_main s').
Proof.
  intros He [_ HM] [HL HP] Hstep. rewrite He in HM. destruct HM as [Hlead Hel].
  unfold step in Hstep. destruct (st_exit s); [done|].
  destruct l; rewrite ?Hlead, ?Hel in Hstep; simplify_eq.
  - destruct (st_main s) as [|a rest] eqn:Hmain; [done|].
    destruct (effect a s) as [s1|] eqn:Hs1; simpl in Hstep; simplify_eq.
    apply Forall_cons in HP as [Ha HP]. simpl.
    rewrite (effect_log _ _ _ Hs1). split; [by apply Forall_app|].
    destruct a; simpl; try done; (constructor; [done || constructor|done]).
  - destruct (st_workers s !! i) as [[w [| |]]|]; simplify_eq. simpl.
    split; [|done]. apply Forall_app. split; [done|].
    destruct w; repeat constructor; simpl; tauto.
  - destruct (st_workers s !! i) as [[w [| |]]|] eqn:Hi; simplify_eq.
    destruct (worker_returns_frame _ _ _ _ _ Hstep) as (-> & _ & _).
    split; [|done].
    unfold worker_returns, wg_Done in Hstep.
    destruct w, err; simplify_eq; simpl;
      try destruct (st_wg s); simpl;
      rewrite <- ?app_assoc; (apply Forall_app; split; [done|]);
      repeat constructor; simpl; tauto.
Qed.

Lemma silent_reachable opts s :
  options.LeaderElect opts = false → reachable opts s →
  Forall (λ e, ¬ elector_event e) (st_log s).
Proof.
  intros HLE [ls Hls].
  pose proof (elects_LeaderElect _ HLE) as He.
  cut (Inv opts s
       ∧ Forall (λ e, ¬ elector_event e) (st_log s) ∧ Forall silent (st_main s));
    [tauto|].
  apply (exec_invariant
           (λ s, Inv opts s
                 ∧ Forall (λ e, ¬ elector_event e) (st_log s) ∧ Forall silent (st_main s)))
    with ls (init opts); [| |done].
  - intros l s0 s1 [HI H0] Hs1. split; [by eapply Inv_step|by eapply silent_step].
  - split; [apply Inv_init|]. split; [constructor|by apply Run_silent].
Qed.

End NoElection.

(** * The workers the supervisor starts *)

Section Started.

Context {HS : Handles} {W : Collaborators}.

Implicit Types (s : state) (ws : list (worker * wstatus)).

(** Cutting a list at the first occurrence of an element. *)
Lemma split_at_first {A} (l1 l2 g t : list A) (x : A) :
  l1 ++ l2 = g ++ x :: t → x ∈ l1 → x ∉ g →
  ∃ l1', l1 = g ++ x :: l1' ∧ t = l1' ++ l2.
Proof.
  revert l1. induction g as [|y g IH]; intros l1 Heq Hin Hnin.
  - destruct l1 as [|a l1]; [by apply elem_of_nil in Hin|].
    simpl in Heq. simplify_eq. by exists l1.
  - destruct l1 as [|a l1]; [by apply elem_of_nil in Hin|].
    simpl in Heq. simplify_eq.
    apply not_elem_of_cons in Hnin as [Hne Hnin].
    apply elem_of_cons in Hin as [Hin|Hin]; [done|].
    destruct (IH l1) as (l1' & -> & ->); [done..|]. by exists l1'.
Qed.


Lemma gos_events p w : w ∈ gos p → EvGo (wid_of w) ∈ run_events p.
Proof.
  induction p as [|a p IH]; intros Hin; [by apply elem_of_nil in Hin|].
  rewrite run_events_cons. apply elem_of_app.
  destruct a; simpl in *; try (right; by apply IH).
  apply elem_of_cons in Hin as [->|Hin]; [left|right; by apply IH].
  rewrite filter_cons_True by done. by apply list_elem_of_singleton.
Qed.

Lemma controllers_of_spec ws n :
  n ∈ controllers_of ws ↔ ∃ fn stop, WController n fn stop ∈ ws.*1.
Proof.
  unfold controllers_of. rewrite list_elem_of_omap. split.
  - intros ([w st] & Hin & Hw). destruct w as [|n' fn stop]; simpl in Hw; simplify_eq.
    exists fn, stop. apply list_elem_of_fmap. by exists (WController n fn stop, st).
  - intros (fn & stop & Hin). apply list_elem_of_fmap in Hin as ([w st] & Hw & Hin).
    simpl in Hw. subst. by exists (WController n fn stop, st).
Qed.

Lemma registered_by_spec opts ctx stop kn w :
  w ∈ registered_by opts ctx stop kn
  ↔ ∃ n fn, w = WController n (fn ctx) stop ∧ selected opts n ∧ (n, fn) ∈ kn.
Proof.
  unfold registered_by. rewrite list_elem_of_fmap. split.
  - intros ([n fn] & -> & Hin). apply list_elem_of_filter in Hin as [Hsel Hin].
    by exists n, fn.
  - intros (n & fn & -> & Hsel & Hin). exists (n, fn). split; [done|].
    by apply list_elem_of_filter.
Qed.

Lemma registrations_not_start regs f ch :
  Forall is_registration regs → EvFactoryStart f ch ∉ regs.
Proof.
  intros Hregs Hin. rewrite Forall_forall in Hregs. by apply Hregs in Hin.
Qed.

(** The supervisor events of the log are a prefix of: registrations, the
    start of the shared informer factory, the start of the Kubernetes one,
    the call of [wg.Wait()]. *)
Lemma supervisor_protocol opts s :
  Inv opts s →
  ∃ regs rest,
    Forall is_registration regs
    ∧ filter (λ e, is_run e) (st_log s) ++ rest = regs ++ warmup_and_wait
    ∧ rest = run_events (sup opts s)
         ++ (if decide (run_events (sup_text opts) = []) then warmup_and_wait else [])
    ∧ (∀ w, EvGo w ∈ regs → ∃ x, x ∈ gos (sup_text opts) ∧ wid_of x = w).
Proof.
  intros [(H1 & _) _].
  destruct (sup_text_cases opts) as [[Hg He]|(tr & ctx & cfg & arg & Hb & Hg & He & _)].
  - exists [], (run_events (sup opts s) ++ warmup_and_wait).
    rewrite He in H1. apply app_eq_nil in H1 as [-> ->].
    rewrite decide_True by done. split_and!; try done.
    intros w Hw. by apply elem_of_nil in Hw.
  - exists (EvEnterRun arg :: ((λ w, EvGo (wid_of w)) <$> gos (sup_text opts))),
      (run_events (sup opts s)).
    rewrite decide_False by (by rewrite He). rewrite app_nil_r.
    split_and!; try done.
    + constructor; [done|]. apply Forall_fmap, Forall_forall. done.
    + by rewrite H1, He.
    + intros w Hw. apply elem_of_cons in Hw as [?|Hw]; [done|].
      apply list_elem_of_fmap in Hw as (x & ? & Hx). simplify_eq. eauto.
Qed.

(** Once the shared informer factory has been started, the loop of [run]
    is over: no go statement is left. *)
Lemma registration_complete opts s :
  Inv opts s →
  EvFactoryStart SharedInformerFactory StopCh ∈ st_log s →
  gos (sup opts s) = [].
Proof.
  intros HI Hin.
  destruct (supervisor_protocol _ _ HI) as (regs & rest & Hregs & Heq & Hrest & _).
  assert (EvFactoryStart SharedInformerFactory StopCh
            ∈ filter (λ e, is_run e) (st_log s)) as Hin'.
  { by apply list_elem_of_filter. }
  destruct (split_at_first _ _ _ _ _ Heq Hin') as (l1' & _ & Ht).
  { by apply registrations_not_start. }
  destruct (gos (sup opts s)) as [|w ws] eqn:Hg; [done|]. exfalso.
  assert (EvGo (wid_of w) ∈ rest) as Hw.
  { rewrite Hrest. apply elem_of_app. left. apply gos_events. rewrite Hg. by left. }
  assert (EvGo (wid_of w)
            ∈ [EvFactoryStart KubeSharedInformerFactory StopCh; EvWgWait]) as Hbad.
  { rewrite Ht. apply elem_of_app. by right. }
  repeat (apply elem_of_cons in Hbad as [Hbad|Hbad]; [done|]).
  by apply elem_of_nil in Hbad.
Qed.


End Started.

(** * The order of the supervisor's steps *)

Section Order.

Context {HS : Handles} {W : Collaborators}.

Implicit Types (s : state) (ws : list (worker * wstatus)).





(** (C7) Every controller the supervisor has registered is called with a
    width of 5: that is what the step of its goroutine logs, and no call
    with another width is ever in the log. *)
Theorem C7_width_is_five opts s :
  reachable opts s →
  (∀ n w stop, EvInvoke n w stop ∈ st_log s → w = 5%Z)
  ∧ (∀ i n fn stop s',
       st_workers s !! i = Some (WController n fn stop, Registered) →
       step (LWorkerStart i) s = Some s' →
       st_log s' = st_log s
                   ++ [EvInfo 0 ("Starting " +:+ n +:+ " controller"); EvInvoke n 5 stop]
       ∧ st_workers s' !! i = Some (WController n fn stop, Running)).
Proof.
  intros Hreach. pose proof (Inv_reachable _ _ Hreach) as [(_ & _ & _ & _ & _ & H6) _].
  split.
  - intros n w stop Hin. rewrite Forall_forall in H6. by apply H6 in Hin as [-> _].
  - intros i n fn stop s' Hi Hstep. unfold step in Hstep.
    destruct (st_exit s); [done|]. rewrite Hi in Hstep. simplify_eq. simpl.
    split; [done|]. apply list_lookup_insert_eq. by eapply lookup_lt_Some.
Qed.

End Order.

(** * Exits *)

Section Exits.

Context {HS : Handles} {W : Collaborators}.

Implicit Types (s : state) (ws : list (worker * wstatus)).

Lemma active_zero ws : active ws = 0 → Forall (λ x, x.2 = Returned) ws.
Proof.
  unfold active. intros H. apply length_zero_iff_nil in H.
  apply Forall_forall. intros x Hx.
  destruct (decide (x.2 = Returned)) as [|Hne]; [done|].
  exfalso. eapply (filter_nil_not_elem_of (λ x, x.2 ≠ Returned)); [exact H|exact Hne|exact Hx].
Qed.

Lemma active_running ws i w : ws !! i = Some (w, Running) → 0 < active ws.
Proof. intros Hi. pose proof (active_return _ _ _ Hi). lia. Qed.

(** (C1, amended) A controller whose call returns an error terminates the
    process at once, with a fatal log line that names it.  A worker whose
    call returns without error leaves the process running: only its own
    status and the counter of the WaitGroup change.  And the supervisor's
    own fatal exit is logged only once every registered worker has
    returned. *)
Theorem C1_fatal_on_error_or_all_returned opts s :
  reachable opts s →
  (∀ i n fn stop e s',
     st_workers s !! i = Some (WController n fn stop, Running) →
     step (LWorkerReturn i (Some e)) s = Some s' →
     st_exit s' = Some ("error running " +:+ n +:+ " controller: " +:+ e)
     ∧ st_log s' = st_log s
                   ++ [EvReturn (Controller n) (Some e);
                       EvFatal ("error running " +:+ n +:+ " controller: " +:+ e)])
  ∧ (∀ i w,
       st_exit s = None →
       st_workers s !! i = Some (w, Running) →
       ∃ s', step (LWorkerReturn i None) s = Some s'
             ∧ st_exit s' = None
             ∧ st_workers s' = <[i:=(w, Returned)]> (st_workers s)
             ∧ S (st_wg s') = st_wg s
             ∧ st_log s' = st_log s ++ [EvReturn (wid_of w) None])
  ∧ (EvFatal exited_msg ∈ st_log s → Forall (λ x, x.2 = Returned) (st_workers s)).
Proof.
  intros Hreach.
  pose proof (Inv_reachable _ _ Hreach) as [(_ & _ & (k & Hk & _) & _ & H5 & _) _].
  split_and!.
  - intros i n fn stop e s' Hi Hstep. unfold step in Hstep.
    destruct (st_exit s); [done|]. rewrite Hi in Hstep.
    unfold worker_returns in Hstep. simplify_eq. simpl.
    by rewrite <- app_assoc.
  - intros i w Hex Hi. unfold step. rewrite Hex, Hi.
    pose proof (active_running _ _ _ Hi) as Hact.
    destruct (st_wg s) as [|n] eqn:Hwg; [lia|].
    exists (set_wg n (set_workers (<[i:=(w, Returned)]> (st_workers s))
                        (add_log [EvReturn (wid_of w) None] s))).
    split; [|done].
    unfold worker_returns, wg_Done. simpl. rewrite Hwg. by destruct w.
  - intros Hin. apply active_zero. by apply H5.
Qed.

(** With the connection built, the error of [buildControllerContext] is
    that of the first field that does not parse. *)
Lemma buildControllerContext_first_bad_field opts cfg intcl cl f e :
  KubeConfig (options.APIServerHost opts) = Ok cfg →
  clientset_NewForConfig cfg = Ok intcl →
  kubernetes_NewForConfig cfg = Ok cl →
  Forall (λ g, is_ok (ParseQuantity (field_value opts g)) = true) (fields_before f) →
  ParseQuantity (field_value opts f) = Err e →
  (buildControllerContext opts).2
  = Err ("error parsing " +:+ field_name f +:+ ": " +:+ e).
Proof.
  intros Hc Hi Hk Hbefore Hf.
  unfold buildControllerContext, parse, orErrorf, call, bind, emit, ret.
  rewrite Hc. simpl. rewrite Hi. simpl. rewrite Hk. simpl.
  destruct f; simpl in Hf, Hbefore;
    repeat match goal with
      | H : Forall _ (_ :: _) |- _ => apply Forall_cons in H as [? H]
      end;
    simpl in *;
    repeat match goal with
      | H : is_ok (ParseQuantity ?s) = true |- _ =>
          destruct (ParseQuantity s); [clear H|discriminate H]
      end;
    simpl; rewrite Hf; reflexivity.
Qed.

(** An error of [buildControllerContext] is what [Run] exits with, as soon
    as the main goroutine has logged what the function did. *)
Lemma Run_exits_with_build_error opts tr msg :
  buildControllerContext opts = (tr, Err msg) →
  ∃ s1, exec (replicate (S (length tr)) LMain) (init opts) = Some s1
        ∧ st_exit s1 = Some msg
        ∧ st_log s1 = tr ++ [EvFatal msg]
        ∧ st_workers s1 = [].
Proof.
  intros Hb.
  assert (st_main (init opts) = (AEmit <$> tr) ++ [AFatalf msg]) as HRun.
  { simpl. unfold Run. by rewrite Hb. }
  pose proof (exec_emits tr (init opts) [AFatalf msg] eq_refl HRun) as Hes.
  rewrite replicate_S_end, (exec_app _ _ _ _ Hes). simpl.
  eexists. split; [reflexivity|]. simpl. done.
Qed.

(** (C3) The four quantities are parsed inside [buildControllerContext],
    before any worker is registered: whenever a worker is registered, the
    log starts with what [buildControllerContext] wrote, which holds the
    four successful parses.  A quantity that does not parse makes
    [buildControllerContext] return an error and no worker is ever
    registered; the error of a failed call of [ParseQuantity] names the
    field it was parsing.  And on the input: when the rest config and both
    clients are built and a field does not parse while the fields before it
    do, [buildControllerContext] returns the error that names this field,
    [Run] exits with it, and no worker is ever registered. *)
Theorem C3_quantities_validated_first opts :
  (∀ s, reachable opts s → st_workers s ≠ [] →
     (buildControllerContext opts).1 `prefix_of` st_log s
     ∧ ∀ f, EvParseQuantity f (field_value opts f) true ∈ (buildControllerContext opts).1)
  ∧ (∀ f e, ParseQuantity (field_value opts f) = Err e →
       (∃ msg, (buildControllerContext opts).2 = Err msg)
       ∧ ∀ s, reachable opts s →
           st_workers s = [] ∧ Forall (λ e, ¬ is_go e) (st_log s))
  ∧ (∀ f v, EvParseQuantity f v false ∈ (buildControllerContext opts).1 →
       ∃ e, ParseQuantity (field_value opts f) = Err e
            ∧ (buildControllerContext opts).2
              = Err ("error parsing " +:+ field_name f +:+ ": " +:+ e))
  ∧ (∀ cfg intcl cl f e,
       KubeConfig (options.APIServerHost opts) = Ok cfg →
       clientset_NewForConfig cfg = Ok intcl →
       kubernetes_NewForConfig cfg = Ok cl →
       Forall (λ g, is_ok (ParseQuantity (field_value opts g)) = true) (fields_before f) →
       ParseQuantity (field_value opts f) = Err e →
       (buildControllerContext opts).2
       = Err ("error parsing " +:+ field_name f +:+ ": " +:+ e)
       ∧ (∃ s1, exec (replicate (S (length (buildControllerContext opts).1)) LMain)
                  (init opts) = Some s1
                ∧ st_exit s1
                  = Some ("error parsing " +:+ field_name f +:+ ": " +:+ e)
                ∧ st_workers s1 = [])
       ∧ ∀ s, reachable opts s →
           st_workers s = [] ∧ Forall (λ e, ¬ is_go e) (st_log s)).
Proof.
  assert (∀ s, reachable opts s → st_workers s ≠ [] →
               ∃ tr ctx cfg, buildControllerContext opts = (tr, Ok (ctx, cfg))) as Hbuilt.
  { intros s Hreach Hws.
    pose proof (Inv_reachable _ _ Hreach) as [(_ & H2 & _) _].
    destruct (sup_text_cases opts) as [[Hg _]|(tr & ctx & cfg & _ & Hb & _)]; [|eauto].
    rewrite Hg in H2. apply app_eq_nil in H2 as [H2 _].
    apply fmap_nil_inv in H2. done. }
  assert (∀ msg, (buildControllerContext opts).2 = Err msg →
               ∀ s, reachable opts s →
                 st_workers s = [] ∧ Forall (λ e, ¬ is_go e) (st_log s)) as Hnone.
  { intros msg Hmsg s Hreach.
    assert (st_workers s = []) as Hws.
    { destruct (st_workers s) eqn:E; [done|]. exfalso.
      destruct (Hbuilt s Hreach) as (tr & ctx & cfg & Hb); [by rewrite E|].
      by rewrite Hb in Hmsg. }
    split; [done|].
    pose proof (Inv_reachable _ _ Hreach) as HI.
    destruct (supervisor_protocol _ _ HI) as (regs & rest & _ & Heq & _ & Hregs).
    apply Forall_forall. intros ev Hev Hgo.
    destruct ev; try done.
    assert (EvGo w ∈ filter (λ e, is_run e) (st_log s)) as Hin
      by (by apply list_elem_of_filter).
    assert (EvGo w ∈ regs ++ warmup_and_wait) as Hin'.
    { rewrite <- Heq. apply elem_of_app. by left. }
    apply elem_of_app in Hin' as [Hin'|Hin'].
    + destruct (Hregs _ Hin') as (x & Hx & _).
      destruct HI as [(_ & H2 & _) _]. rewrite <- H2, Hws in Hx. simpl in Hx.
      destruct (sup_text_cases opts) as [[Hg _]|(tr & ctx & cfg & _ & Hb & _)].
      * rewrite <- H2, Hws in Hg. simpl in Hg. rewrite Hg in Hx.
        by apply elem_of_nil in Hx.
      * by rewrite Hb in Hmsg.
    + unfold warmup_and_wait in Hin'.
      repeat (apply elem_of_cons in Hin' as [Hin'|Hin']; [done|]).
      by apply elem_of_nil in Hin'. }
  split_and!.
  - intros s Hreach Hws. split.
    + destruct (booting_or_built _ _ Hreach) as [(_ & _ & _ & _ & _ & ? & _)|?]; done.
    + intros f. destruct (Hbuilt _ Hreach Hws) as (tr & ctx & cfg & Hb).
      rewrite Hb. simpl. by eapply buildControllerContext_parsed.
  - intros f e Hf.
    destruct (buildControllerContext_unparsable _ _ _ Hf) as [msg Hmsg].
    split; [eauto|]. by apply (Hnone msg).
  - intros f v. apply buildControllerContext_names_field.
  - intros cfg intcl cl f e Hc Hi Hk Hbefore Hf.
    pose proof (buildControllerContext_first_bad_field _ _ _ _ _ _ Hc Hi Hk Hbefore Hf)
      as Herr.
    split_and!; [exact Herr| |by apply (Hnone _ Herr)].
    destruct (buildControllerContext opts) as [tr r] eqn:Hb. simpl in Herr. subst r.
    destruct (Run_exits_with_build_error _ _ _ Hb) as (s1 & Hs1 & Hex1 & _ & Hws1).
    exists s1. simpl. split_and!; [exact Hs1|exact Hex1|exact Hws1].
Qed.

(** (C5) With leader election switched off, no leader-election client is
    built, the elector is never entered and no goroutine is started for
    [run]: [Run] calls it itself, on its own stop channel, as soon as
    [buildControllerContext] has returned a context. *)
Theorem C5_no_leader_election opts :
  options.LeaderElect opts = false →
  (∀ s, reachable opts s →
     st_elector s = Standby
     ∧ st_leading s = None
     ∧ (∀ ok, EvNewClient LeaderElectionClient ok ∉ st_log s)
     ∧ (EvStartedLeading ∉ st_log s)
     ∧ (∀ ch, EvEnterRun ch ∈ st_log s → ch = StopCh))
  ∧ (∀ tr ctx cfg, buildControllerContext opts = (tr, Ok (ctx, cfg)) →
       ∃ s1, exec (replicate (S (length tr)) LMain) (init opts) = Some s1
             ∧ st_log s1 = tr ++ [EvEnterRun StopCh]
             ∧ AEmit (EvEnterRun StopCh) :: st_main s1 = run opts ctx StopCh StopCh).
Proof.
  intros HLE. pose proof (elects_LeaderElect _ HLE) as He. split.
  - intros s Hreach.
    pose proof (Inv_reachable _ _ Hreach) as HI.
    pose proof (silent_reachable _ _ HLE Hreach) as Hsil.
    rewrite Forall_forall in Hsil.
    destruct (supervisor_protocol _ _ HI) as (regs & rest & _ & Heq & _).
    destruct HI as [(H1 & _) HM]. rewrite He in HM. destruct HM as [Hlead Hel].
    split_and!; try done.
    + intros ok Hin. by apply Hsil in Hin.
    + intros Hin. by apply Hsil in Hin.
    + intros ch Hin.
      assert (EvEnterRun ch ∈ run_events (sup_text opts)) as Hin'.
      { rewrite <- H1. apply elem_of_app. left. by apply list_elem_of_filter. }
      destruct (sup_text_cases opts) as [[_ Hev]|(tr & ctx & cfg & arg & _ & _ & Hev & Harg)];
        rewrite Hev in Hin'; [by apply elem_of_nil in Hin'|].
      rewrite (Harg HLE) in Hin'.
      apply elem_of_cons in Hin' as [?|Hin']; [by simplify_eq|].
      apply elem_of_app in Hin' as [Hin'|Hin'].
      * apply list_elem_of_fmap in Hin' as (x & ? & _). done.
      * unfold warmup_and_wait in Hin'.
        repeat (apply elem_of_cons in Hin' as [Hin'|Hin']; [done|]).
        by apply elem_of_nil in Hin'.
  - intros tr ctx cfg Hb.
    assert (Run opts StopCh = (AEmit <$> tr) ++ run opts ctx StopCh StopCh) as HRun.
    { unfold Run. by rewrite Hb, HLE. }
    rewrite replicate_S_end.
    assert (exec (replicate (length tr) LMain) (init opts)
            = Some (set_main (run opts ctx StopCh StopCh) (add_log tr (init opts)))) as Hex.
    { by apply exec_emits. }
    eexists. split_and!.
    + erewrite exec_app; [|exact Hex]. simpl. reflexivity.
    + done.
    + done.
Qed.

Lemma step_Lost l s s' : st_elector s = Lost → step l s = Some s' → st_elector s' = Lost.
Proof.
  intros Hel Hstep. unfold step in Hstep. destruct (st_exit s); [done|].
  destruct l; rewrite ?Hel in Hstep; try done.
  - destruct (st_main s) as [|a rest]; [done|].
    destruct (effect a s) as [s1|] eqn:Hs1; simpl in Hstep; simplify_eq. simpl.
    destruct a; simpl in Hs1; simplify_eq; try done.
    + case_decide; by simplify_eq.
    + by rewrite Hel in Hs1.
  - destruct (st_leading s) as [[|a rest]|]; try done.
    destruct (effect a s) as [s1|] eqn:Hs1; simpl in Hstep; simplify_eq. simpl.
    destruct a; simpl in Hs1; simplify_eq; try done.
    + case_decide; by simplify_eq.
    + by rewrite Hel in Hs1.
  - destruct (st_workers s !! i) as [[w [| |]]|]; by simplify_eq.
  - destruct (st_workers s !! i) as [[w [| |]]|]; simplify_eq.
    by destruct (worker_returns_frame _ _ _ _ _ Hstep) as (_ & _ & ->).
Qed.

(** (C6) When the lease is lost the callback [OnStoppedLeading] is all that
    is left to the goroutine of [Run]: its next step logs the fatal line
    and terminates the process, after which nothing moves; and in every
    state after the loss the elector is still lost and the process has
    either exited or has that fatal exit as the next step of its main
    goroutine. *)
Theorem C6_leadership_lost_is_fatal opts s s' :
  reachable opts s →
  step LLose s = Some s' →
  st_elector s' = Lost
  ∧ st_log s' = st_log s ++ [EvStoppedLeading]
  ∧ (∃ rest, st_main s' = AFatalf lost_msg :: rest)
  ∧ (∃ s'', step LMain s' = Some s''
            ∧ st_exit s'' = Some lost_msg
            ∧ st_log s'' = st_log s' ++ [EvFatal lost_msg]
            ∧ ∀ l, step l s'' = None)
  ∧ (∀ ls s2, exec ls s' = Some s2 →
       st_elector s2 = Lost
       ∧ (is_Some (st_exit s2) ∨ ∃ rest, st_main s2 = AFatalf lost_msg :: rest)).
Proof.
  intros Hreach Hstep.
  pose proof (Inv_reachable _ _ Hreach) as HI.
  pose proof (Inv_step _ _ _ _ HI Hstep) as HI'.
  assert (elects opts = true) as He.
  { destruct (elects opts) eqn:He; [done|]. destruct HI as [_ HM]. rewrite He in HM.
    destruct HM as [_ Hel]. unfold step in Hstep.
    destruct (st_exit s); [done|]. by rewrite Hel in Hstep. }
  assert (st_elector s' = Lost ∧ st_log s' = st_log s ++ [EvStoppedLeading]
          ∧ st_exit s' = None) as (Hel' & Hlog' & Hex').
  { unfold step in Hstep. destruct (st_exit s) eqn:Hex; [done|].
    destruct (st_elector s); by simplify_eq. }
  assert (∀ s2, Inv opts s2 → st_elector s2 = Lost →
            is_Some (st_exit s2) ∨ ∃ rest, st_main s2 = AFatalf lost_msg :: rest) as Hlost.
  { intros s2 [_ HM] Hel2. rewrite He in HM. destruct HM as [_ HE].
    unfold elector_inv in HE. by rewrite Hel2 in HE. }
  destruct (Hlost _ HI' Hel') as [[x Hx]|[rest Hmain]]; [congruence|].
  split_and!; [done|done|eauto| |].
  - exists (set_main rest (set_exit lost_msg (add_log [EvFatal lost_msg] s'))).
    unfold step. rewrite Hex', Hmain. simpl. by split_and!.
  - intros ls s2 Hex2.
    cut (Inv opts s2 ∧ st_elector s2 = Lost).
    { intros [HI2 Hel2]. split; [done|]. by apply Hlost. }
    apply (exec_invariant (λ s, Inv opts s ∧ st_elector s = Lost)) with ls s'; [|done..].
    intros l s0 s1 [HI0 Hel0] Hs1. split; [by eapply Inv_step|by eapply step_Lost].
Qed.

End Exits.

(** * The theorems on the concrete deployment *)

Section OnScenario.

Import Scenario.

Lemma reachable_after o ls :
  runs o ls = true → reachable (W:=world) o (after o ls).
Proof.
  intros Hr. apply bool_decide_eq_true in Hr as [s Hs].
  exists ls. unfold after. by rewrite Hs.
Qed.

Ltac find_event :=
  vm_compute; repeat first [apply list_elem_of_here | apply list_elem_of_further].

(** Scenario A, both controllers running: certificates returns nil while
    issuers is still in its call, and the process goes on. *)
Lemma C1_clean_return_is_not_fatal : ¬ fatal_on_any_return (W:=world) opts.
Proof.
  intros H.
  assert (is_Some (st_exit (after opts (both_running ++ [LWorkerReturn 1 None]))))
    as [msg Hmsg].
  { apply (H (after opts both_running) 1 2 None).
    - apply reachable_after. vm_compute. reflexivity.
    - discriminate.
    - exists (WController (HS:=handles) "issuers" "issuers-loop" StopCh). vm_compute. reflexivity.
    - vm_compute. reflexivity. }
  vm_compute in Hmsg. discriminate.
Qed.

Lemma C1_witness :
  (∃ s', step (LWorkerReturn 1 None) (after opts both_running) = Some s'
         ∧ st_exit s' = None
         ∧ st_workers s'
           = <[1:=(WController (HS:=handles) "certificates" "certificates-loop" StopCh, Returned)]>
               (st_workers (after opts both_running))
         ∧ S (st_wg s') = st_wg (after opts both_running)
         ∧ st_log s' = st_log (after opts both_running)
                       ++ [EvReturn (Controller "certificates") None]).
Proof.
  assert (reachable (W:=world) opts (after opts both_running)) as Hreach.
  { apply reachable_after. vm_compute. reflexivity. }
  destruct (C1_fatal_on_error_or_all_returned (W:=world) opts _ Hreach) as (_ & Hnil & _).
  apply (Hnil 1 (WController (HS:=handles) "certificates" "certificates-loop" StopCh)).
  - vm_compute. reflexivity.
  - vm_compute. reflexivity.
Defined.


Lemma C3_witness :
  (buildControllerContext (W:=world) opts).1 `prefix_of` st_log (after opts registered)
  ∧ EvParseQuantity LimitsMemory "64Mi" true ∈ (buildControllerContext (W:=world) opts).1
  ∧ (buildControllerContext (W:=world) opts_bad_cpu).2
    = Err "error parsing ACMEHTTP01SolverResourceRequestCPU: quantities must match the regular expression"
  ∧ st_workers (after opts_bad_cpu (replicate 6 LMain)) = [].
Proof.
  destruct (C3_quantities_validated_first (W:=world) opts) as (Hreg & _).
  destruct (Hreg (after opts registered)) as [Hpre Hall].
  { apply reachable_after. vm_compute. reflexivity. }
  { vm_compute. discriminate. }
  destruct (C3_quantities_validated_first (W:=world) opts_bad_cpu) as (_ & _ & _ & Hbad).
  destruct (Hbad "" "" "" RequestCPU "quantities must match the regular expression")
    as (Herr & _ & Hnone).
  - vm_compute. reflexivity.
  - vm_compute. reflexivity.
  - vm_compute. reflexivity.
  - constructor.
  - vm_compute. reflexivity.
  - split; [exact Hpre|]. split; [exact (Hall LimitsMemory)|].
    split; [exact Herr|]. apply Hnone. apply reachable_after. vm_compute. reflexivity.
Defined.


Lemma C5_witness :
  st_elector (after opts waiting) = Standby
  ∧ st_leading (after opts waiting) = None.
Proof.
  destruct (C5_no_leader_election (W:=world) opts) as [Hsafe _].
  - reflexivity.
  - destruct (Hsafe (after opts waiting)) as (Hel & Hlead & _).
    + apply reachable_after. vm_compute. reflexivity.
    + split; [exact Hel|exact Hlead].
Defined.

Lemma C6_witness :
  ∃ s'', step LMain (after opts_elect (leading ++ [LLose])) = Some s''
         ∧ st_exit s'' = Some lost_msg.
Proof.
  destruct (C6_leadership_lost_is_fatal (W:=world) opts_elect
              (after opts_elect leading) (after opts_elect (leading ++ [LLose])))
    as (_ & _ & _ & (s'' & Hstep & Hexit & _) & _).
  - apply reachable_after. vm_compute. reflexivity.
  - vm_compute. reflexivity.
  - exists s''. split; [exact Hstep|exact Hexit].
Defined.

Lemma C7_witness :
  st_log (after opts (registered ++ [LWorkerStart 1]))
  = st_log (after opts registered)
    ++ [EvInfo 0 "Starting certificates controller"; EvInvoke "certificates" 5 StopCh].
Proof.
  destruct (C7_width_is_five (W:=world) opts (after opts registered)) as [_ Hstart].
  - apply reachable_after. vm_compute. reflexivity.
  - apply (Hstart 1 "certificates" "certificates-loop" StopCh
             (after opts (registered ++ [LWorkerStart 1]))).
    + vm_compute. reflexivity.
    + vm_compute. reflexivity.
Defined.

Example buildControllerContext_scenario_A :
  buildControllerContext (W:=world) opts = (expected_trace, Ok (expected_context, "")).
Proof. vm_compute. reflexivity. Qed.

Lemma C9_witness :
  controller.DNS01Nameservers (controller.ACMEOptions_ expected_context)
  = ["8.8.8.8:53"; "8.8.4.4:53"].
Proof.
  destruct (C9_nameservers_default (W:=world) opts expected_trace expected_context "")
    as [Hdef _].
  - vm_compute. reflexivity.
  - apply Hdef. reflexivity.
Defined.

Lemma C10_witness :
  controller.DNS01CheckAuthoritative (controller.ACMEOptions_ expected_context) = true.
Proof.
  apply (C10_check_authoritative (W:=world) opts expected_trace expected_context "").
  vm_compute. reflexivity.
Defined.

End OnScenario.

(** * The scenarios of the specification *)

Section Scenarios.

Import Scenario.

(** Scenario A: three entries looked up, clusterissuers not enabled, two
    controllers started. *)
Example scenario_A :
  controllers_of (st_workers (after opts warming)) = ["certificates"; "issuers"].
Proof. vm_compute. reflexivity. Qed.

(** Scenario B: clusterissuers is enabled and skipped all the same. *)
Example scenario_B :
  controllers_of (st_workers (after opts_team_a warming)) = ["certificates"; "issuers"]
  ∧ EvInfo 0 "Skipping ClusterIssuer controller as cert-manager is scoped to a single namespace"
    ∈ st_log (after opts_team_a warming).
Proof.
  split; [vm_compute; reflexivity|].
  vm_compute. repeat first [apply list_elem_of_here | apply list_elem_of_further].
Qed.

(** Scenario C: the error names the request CPU, and the process exits
    with it before any worker exists. *)
Example scenario_C :
  (buildControllerContext (W:=world) opts_bad_cpu).2
  = Err "error parsing ACMEHTTP01SolverResourceRequestCPU: quantities must match the regular expression"
  ∧ st_exit (after opts_bad_cpu (replicate 6 LMain))
    = Some "error parsing ACMEHTTP01SolverResourceRequestCPU: quantities must match the regular expression"
  ∧ st_workers (after opts_bad_cpu (replicate 6 LMain)) = [].
Proof. split_and!; vm_compute; reflexivity. Qed.

(** Scenario D: without leader election the main goroutine is the one that
    ends up blocked in [wg.Wait()]. *)
Example scenario_D :
  st_main (after opts waiting) = [AWgBlocked; AFatalf "Control loops exited"]
  ∧ st_elector (after opts waiting) = Standby.
Proof. split; vm_compute; reflexivity. Qed.

(** All workers return nil one after the other: only then does the
    supervisor pass [wg.Wait()] and exit. *)
Example all_returned_then_exit :
  st_exit (after opts (waiting ++ [LWorkerStart 0; LWorkerStart 1; LWorkerStart 2;
                                   LWorkerReturn 0 None; LWorkerReturn 1 None]))
  = None
  ∧ step LMain (after opts (waiting ++ [LWorkerStart 0; LWorkerStart 1; LWorkerStart 2;
                                        LWorkerReturn 0 None; LWorkerReturn 1 None]))
    = None
  ∧ st_exit (after opts (waiting ++ [LWorkerStart 0; LWorkerStart 1; LWorkerStart 2;
                                     LWorkerReturn 0 None; LWorkerReturn 1 None;
                                     LWorkerReturn 2 None; LMain; LMain]))
    = Some "Control loops exited".
Proof. split_and!; vm_compute; reflexivity. Qed.

(** A controller that returns an error ends the process on the spot. *)
Example error_return_is_fatal :
  st_exit (after opts (both_running ++ [LWorkerReturn 2 (Some "queue shut down")]))
  = Some "error running issuers controller: queue shut down".
Proof. vm_compute. reflexivity. Qed.

End Scenarios.

(** * More on [buildControllerContext] *)

Section BuildMore.

Context {HS : Handles} {W : Collaborators}.

(** (X1) Errors of the connection come first: when the rest config cannot
    be loaded, or one of the two clients cannot be built, that is the error
    returned, whatever the quantities are, and nothing after the failed call
    is attempted. *)
Theorem build_connection_errors_first opts :
  (∀ e, KubeConfig (options.APIServerHost opts) = Err e →
     buildControllerContext opts
     = ([EvKubeConfig (options.APIServerHost opts) false],
        Err ("error creating rest config: " +:+ e)))
  ∧ (∀ cfg e, KubeConfig (options.APIServerHost opts) = Ok cfg →
       clientset_NewForConfig cfg = Err e →
       buildControllerContext opts
       = ([EvKubeConfig (options.APIServerHost opts) true;
           EvNewClient InternalGroupClient false],
          Err ("error creating internal group client: " +:+ e)))
  ∧ (∀ cfg intcl e, KubeConfig (options.APIServerHost opts) = Ok cfg →
       clientset_NewForConfig cfg = Ok intcl →
       kubernetes_NewForConfig cfg = Err e →
       buildControllerContext opts
       = ([EvKubeConfig (options.APIServerHost opts) true;
           EvNewClient InternalGroupClient true;
           EvNewClient KubernetesClient false],
          Err ("error creating kubernetes client: " +:+ e))).
Proof.
  split_and!.
  - intros e He. unfold buildControllerContext, orErrorf, call, bind.
    rewrite He. reflexivity.
  - intros cfg e Hc He. unfold buildControllerContext, orErrorf, call, bind.
    rewrite Hc. simpl. rewrite He. reflexivity.
  - intros cfg intcl e Hc Hi He. unfold buildControllerContext, orErrorf, call, bind.
    rewrite Hc. simpl. rewrite Hi. simpl. rewrite He. reflexivity.
Qed.

(** (X2) With the connection built, the error names the first field, in the
    order request CPU, request memory, limits CPU, limits memory, that does
    not parse; the fields after it are not parsed at all. *)
Theorem build_names_first_bad_field opts cfg intcl cl f e :
  KubeConfig (options.APIServerHost opts) = Ok cfg →
  clientset_NewForConfig cfg = Ok intcl →
  kubernetes_NewForConfig cfg = Ok cl →
  Forall (λ g, is_ok (ParseQuantity (field_value opts g)) = true) (fields_before f) →
  ParseQuantity (field_value opts f) = Err e →
  (buildControllerContext opts).2
  = Err ("error parsing " +:+ field_name f +:+ ": " +:+ e)
  ∧ last (buildControllerContext opts).1
    = Some (EvParseQuantity f (field_value opts f) false)
  ∧ (∀ g v ok, EvParseQuantity g v ok ∈ (buildControllerContext opts).1 →
       g = f ∨ g ∈ fields_before f).
Proof.
  intros Hc Hi Hk Hbefore Hf.
  unfold buildControllerContext, parse, orErrorf, call, bind, emit, ret.
  rewrite Hc. simpl. rewrite Hi. simpl. rewrite Hk. simpl.
  destruct f; simpl in Hf, Hbefore;
    repeat match goal with
      | H : Forall _ (_ :: _) |- _ => apply Forall_cons in H as [? H]
      end;
    simpl in *;
    repeat match goal with
      | H : is_ok (ParseQuantity ?s) = true |- _ =>
          destruct (ParseQuantity s); [clear H|discriminate H]
      end;
    simpl; rewrite Hf; simpl;
    (split_and!; [reflexivity|reflexivity|]);
    intros g v ok Hin;
    repeat (apply elem_of_cons in Hin as [Hin|Hin]; [simplify_eq|]);
    try (by apply elem_of_nil in Hin);
    set_solver.
Qed.

(** (X3) [buildControllerContext] returns a context exactly when the rest
    config loads, both clients are built and all four quantities parse. *)
Theorem build_succeeds_iff opts :
  is_ok (buildControllerContext opts).2 = true
  ↔ ∃ cfg, KubeConfig (options.APIServerHost opts) = Ok cfg
           ∧ is_ok (clientset_NewForConfig cfg) = true
           ∧ is_ok (kubernetes_NewForConfig cfg) = true
           ∧ ∀ f, is_ok (ParseQuantity (field_value opts f)) = true.
Proof.
  split.
  - unfold buildControllerContext, parse, orErrorf, call, bind, emit, ret.
    destruct (KubeConfig (options.APIServerHost opts)) as [kubeCfg|?]; simpl; [|done].
    destruct (clientset_NewForConfig kubeCfg) as [intcl|?] eqn:Hi; simpl; [|done].
    destruct (kubernetes_NewForConfig kubeCfg) as [cl|?] eqn:Hk; simpl; [|done].
    destruct (ParseQuantity (options.ACMEHTTP01SolverResourceRequestCPU opts))
      eqn:Hq1; simpl; [|done].
    destruct (ParseQuantity (options.ACMEHTTP01SolverResourceRequestMemory opts))
      eqn:Hq2; simpl; [|done].
    destruct (ParseQuantity (options.ACMEHTTP01SolverResourceLimitsCPU opts))
      eqn:Hq3; simpl; [|done].
    destruct (ParseQuantity (options.ACMEHTTP01SolverResourceLimitsMemory opts))
      eqn:Hq4; simpl; [|done].
    intros _. exists kubeCfg. rewrite Hi, Hk. split_and!; try done.
    intros f. destruct f; simpl; by rewrite ?Hq1, ?Hq2, ?Hq3, ?Hq4.
  - intros (cfg & Hc & Hi & Hk & Hq).
    pose proof (Hq RequestCPU) as H1. pose proof (Hq RequestMemory) as H2.
    pose proof (Hq LimitsCPU) as H3. pose proof (Hq LimitsMemory) as H4.
    simpl in H1, H2, H3, H4.
    unfold buildControllerContext, parse, orErrorf, call, bind, emit, ret.
    rewrite Hc. simpl.
    destruct (clientset_NewForConfig cfg); [|discriminate Hi]. simpl.
    destruct (kubernetes_NewForConfig cfg); [|discriminate Hk]. simpl.
    destruct (ParseQuantity (options.ACMEHTTP01SolverResourceRequestCPU opts));
      [|discriminate H1]. simpl.
    destruct (ParseQuantity (options.ACMEHTTP01SolverResourceRequestMemory opts));
      [|discriminate H2]. simpl.
    destruct (ParseQuantity (options.ACMEHTTP01SolverResourceLimitsCPU opts));
      [|discriminate H3]. simpl.
    destruct (ParseQuantity (options.ACMEHTTP01SolverResourceLimitsMemory opts));
      [|discriminate H4]. reflexivity.
Qed.

(** (X4) [buildControllerContext] stops at the first call that fails: a
    returned context means no call failed, and a returned error means the
    failed call is the last thing the function did, the only one that
    failed. *)
Theorem build_stops_at_first_failure opts :
  (is_ok (buildControllerContext opts).2 = true →
     Forall (λ e, failed e = false) (buildControllerContext opts).1)
  ∧ (is_ok (buildControllerContext opts).2 = false →
     ∃ tr e, (buildControllerContext opts).1 = tr ++ [e]
             ∧ failed e = true
             ∧ Forall (λ e, failed e = false) tr).
Proof.
  split.
  - bcc opts; intros Hok; simpl in Hok; try discriminate Hok. repeat constructor.
  - bcc opts; intros Hok; simpl in Hok; try discriminate Hok.
    + eexists [_; _; _; _; _; _; _], _. split; [reflexivity|].
      split; [reflexivity|repeat constructor].
    + eexists [_; _; _; _; _; _], _. split; [reflexivity|].
      split; [reflexivity|repeat constructor].
    + eexists [_; _; _; _; _], _. split; [reflexivity|].
      split; [reflexivity|repeat constructor].
    + eexists [_; _; _; _], _. split; [reflexivity|].
      split; [reflexivity|repeat constructor].
    + eexists [_; _], _. split; [reflexivity|].
      split; [reflexivity|repeat constructor].
    + eexists [_], _. split; [reflexivity|].
      split; [reflexivity|repeat constructor].
    + eexists [], _. split; [reflexivity|].
      split; [reflexivity|repeat constructor].
Qed.

(** (X5) The context is wired to one connection: the returned rest config
    is the one loaded for the host of the options, both clients of the
    context are built from it, the Kubernetes informer factory and the event
    recorder use the Kubernetes client, the cert-manager informer factory
    uses the cert-manager client, and the recorder's component is
    cert-manager. *)
Theorem build_wires_one_connection opts tr ctx cfg :
  buildControllerContext opts = (tr, Ok (ctx, cfg)) →
  KubeConfig (options.APIServerHost opts) = Ok cfg
  ∧ kubernetes_NewForConfig cfg = Ok (controller.Client ctx)
  ∧ clientset_NewForConfig cfg = Ok (controller.CMClient ctx)
  ∧ controller.informerClient (controller.KubeSharedInformerFactory ctx)
    = controller.Client ctx
  ∧ controller.informerClient (controller.SharedInformerFactory ctx)
    = controller.CMClient ctx
  ∧ controller.sinkClient (controller.Recorder ctx) = controller.Client ctx
  ∧ controller.Component (controller.Recorder ctx) = controllerAgentName.
Proof.
  unfold buildControllerContext, parse, orErrorf, call, bind, emit, ret.
  destruct (KubeConfig (options.APIServerHost opts)) as [kubeCfg|?]; simpl; [|done].
  destruct (clientset_NewForConfig kubeCfg) as [intcl|?] eqn:Hi; simpl; [|done].
  destruct (kubernetes_NewForConfig kubeCfg) as [cl|?] eqn:Hk; simpl; [|done].
  destruct (ParseQuantity _); simpl; [|done].
  destruct (ParseQuantity _); simpl; [|done].
  destruct (ParseQuantity _); simpl; [|done].
  destruct (ParseQuantity _); simpl; [|done].
  intros H. simplify_eq. simpl. done.
Qed.

(** (X6) Each quantity of the ACME options of the context is the parse of
    the option of the same name, and the solver image is passed on. *)
Theorem build_quantities_match_fields opts tr ctx cfg :
  buildControllerContext opts = (tr, Ok (ctx, cfg)) →
  ParseQuantity (options.ACMEHTTP01SolverResourceRequestCPU opts)
  = Ok (controller.HTTP01SolverResourceRequestCPU (controller.ACMEOptions_ ctx))
  ∧ ParseQuantity (options.ACMEHTTP01SolverResourceRequestMemory opts)
    = Ok (controller.HTTP01SolverResourceRequestMemory (controller.ACMEOptions_ ctx))
  ∧ ParseQuantity (options.ACMEHTTP01SolverResourceLimitsCPU opts)
    = Ok (controller.HTTP01SolverResourceLimitsCPU (controller.ACMEOptions_ ctx))
  ∧ ParseQuantity (options.ACMEHTTP01SolverResourceLimitsMemory opts)
    = Ok (controller.HTTP01SolverResourceLimitsMemory (controller.ACMEOptions_ ctx))
  ∧ controller.HTTP01SolverImage (controller.ACMEOptions_ ctx)
    = options.ACMEHTTP01SolverImage opts.
Proof. bcc opts; intros H; simplify_eq; simpl. done. Qed.

(** (X7) The context and both informer factories are scoped to the
    namespace of the options, and both factories resynchronise every 30
    seconds. *)
Theorem build_scopes_factories opts tr ctx cfg :
  buildControllerContext opts = (tr, Ok (ctx, cfg)) →
  controller.Namespace ctx = options.Namespace opts
  ∧ controller.informerNamespace (controller.SharedInformerFactory ctx)
    = options.Namespace opts
  ∧ controller.informerNamespace (controller.KubeSharedInformerFactory ctx)
    = options.Namespace opts
  ∧ controller.defaultResync (controller.SharedInformerFactory ctx) = (30 * Second)%Z
  ∧ controller.defaultResync (controller.KubeSharedInformerFactory ctx) = (30 * Second)%Z.
Proof. bcc opts; intros H; simplify_eq; simpl. done. Qed.

End BuildMore.

(** * More on the code of [Run] *)

Section TextMore.

Context {HS : Handles} {W : Collaborators}.

Implicit Types (s : state) (p : list action).

Lemma guarded_emit es p : guarded p → guarded ((AEmit <$> es) ++ p).
Proof. induction es as [|e es IH]; simpl; auto. Qed.

Lemma bal_emit es k p : bal k p → bal k ((AEmit <$> es) ++ p).
Proof. induction es as [|e es IH]; simpl; auto. Qed.

Lemma known_emit opts es :
  Forall plain es → Forall (known_action opts) (AEmit <$> es).
Proof. intros H. apply Forall_fmap. eapply Forall_impl; [exact H|]. done. Qed.

Lemma loop_known opts o ctx stop kn :
  Forall (known_action opts) (flat_map (loop_body o ctx stop) kn).
Proof.
  induction kn as [|[n fn] kn IH]; [constructor|].
  cbn [flat_map]. apply Forall_app. split; [|done].
  unfold loop_body. destruct (negb _); [|destruct (_ && _)]; repeat constructor.
Qed.

Lemma loop_guarded o ctx stop kn p :
  guarded p → guarded (flat_map (loop_body o ctx stop) kn ++ p).
Proof.
  intros Hp. induction kn as [|[n fn] kn IH]; [done|].
  cbn [flat_map]. rewrite <- app_assoc.
  unfold loop_body. destruct (negb _); [|destruct (_ && _)]; simpl; done.
Qed.

Lemma loop_bal o ctx stop kn p : bal 0 p → bal 0 (flat_map (loop_body o ctx stop) kn ++ p).
Proof.
  intros Hp. induction kn as [|[n fn] kn IH]; [done|].
  cbn [flat_map]. rewrite <- app_assoc.
  unfold loop_body. destruct (negb _); [|destruct (_ && _)]; simpl; try done.
  split; [lia|done].
Qed.

Lemma run_known opts ctx stop arg : Forall (known_action opts) (run opts ctx stop arg).
Proof.
  unfold run. repeat (apply Forall_cons; split; [done|]).
  apply Forall_app. split; [apply loop_known|].
  repeat (apply Forall_cons; split; [done|]).
  apply Forall_cons. split; [by right|constructor].
Qed.

Lemma run_guarded opts ctx stop arg : guarded (run opts ctx stop arg).
Proof. unfold run. simpl. by apply loop_guarded. Qed.

Lemma run_bal opts ctx stop arg : bal 0 (run opts ctx stop arg).
Proof. unfold run. simpl. split; [lia|]. by apply loop_bal. Qed.

Ltac run_cases opts Hb :=
  unfold sup_text, elects, run_text, Run, startLeaderElection;
  destruct (buildControllerContext opts) as [tr [[ctx kubeCfg]|err]] eqn:Hb;
  [ destruct (options.LeaderElect opts) eqn:HLE; cbn [negb andb is_ok];
    [ destruct (kubernetes_NewForConfig (AddUserAgent kubeCfg "leader-election"))
        as [lecl|err] eqn:Hlecl; cbn [negb andb is_ok];
      [ destruct Hostname as [id|err] eqn:Hid; cbn [negb andb is_ok] | ]
    | ]
  | cbn [negb andb is_ok] ].

Lemma Run_known opts : Forall (known_action opts) (Run opts StopCh).
Proof.
  pose proof (buildControllerContext_trace_plain opts) as Hpl.
  assert (∀ m, startup_error opts m → known_action opts (AFatalf m)) as Hst
    by (intros m Hm; by left).
  unfold Run.
  destruct (buildControllerContext opts) as [tr [[ctx kubeCfg]|err]] eqn:Hb;
    simpl in Hpl; (apply Forall_app; split; [by apply known_emit|]).
  - destruct (options.LeaderElect opts) eqn:HLE; simpl; [|apply run_known].
    apply Forall_cons. split; [done|].
    destruct (kubernetes_NewForConfig (AddUserAgent kubeCfg "leader-election"))
      as [lecl|err] eqn:Hlecl.
    + apply Forall_app. split; [|by apply Forall_cons].
      unfold startLeaderElection. destruct Hostname as [id|err] eqn:Hid.
      * apply Forall_cons. split; [|constructor].
        simpl. exists tr, ctx, kubeCfg, lecl.
        split_and!; try done. unfold startLeaderElection. by rewrite Hid.
      * apply Forall_cons. split; [|constructor]. apply Hst. unfold startup_error.
        by rewrite Hb, Hlecl, Hid.
    + apply Forall_cons. split; [|constructor]. apply Hst. unfold startup_error.
      by rewrite Hb, Hlecl.
  - apply Forall_cons. split; [|constructor]. apply Hst. unfold startup_error.
    by rewrite Hb.
Qed.

Lemma Run_guarded opts : guarded (Run opts StopCh).
Proof.
  unfold Run, startLeaderElection.
  destruct (buildControllerContext opts) as [tr [[ctx kubeCfg]|err]];
    apply guarded_emit.
  - destruct (options.LeaderElect opts); cbn [negb]; [|apply run_guarded].
    simpl. destruct (kubernetes_NewForConfig (AddUserAgent kubeCfg "leader-election"));
      [|done].
    by destruct Hostname.
  - done.
Qed.

Lemma run_text_known opts : Forall (known_action opts) (run_text opts).
Proof.
  unfold run_text. destruct (buildControllerContext opts) as [tr [[ctx kubeCfg]|err]];
    [apply run_known|constructor].
Qed.

Lemma run_text_guarded opts : guarded (run_text opts).
Proof.
  unfold run_text. destruct (buildControllerContext opts) as [tr [[ctx kubeCfg]|err]];
    [apply run_guarded|done].
Qed.

Lemma sup_text_bal opts : bal 0 (sup_text opts).
Proof.
  run_cases opts Hb; try (apply bal_emit); try apply run_bal; simpl; done.
Qed.

(** The code of the supervisor, with the argument [run] is entered with:
    the elector's channel under leader election, the stop channel of [Run]
    otherwise. *)
Lemma sup_text_shape opts :
  (gos (sup_text opts) = [] ∧ run_events (sup_text opts) = [])
  ∨ (∃ tr ctx cfg,
       buildControllerContext opts = (tr, Ok (ctx, cfg))
       ∧ elects opts = options.LeaderElect opts
       ∧ gos (sup_text opts) = WMetrics StopCh :: registered_by opts ctx StopCh range_Known
       ∧ run_events (sup_text opts)
         = EvEnterRun (if options.LeaderElect opts then LeaderStop else StopCh)
           :: ((λ w, EvGo (wid_of w)) <$> gos (sup_text opts))
           ++ warmup_and_wait).
Proof.
  pose proof (buildControllerContext_trace_not_run opts) as Htr.
  destruct (elects opts) eqn:He; revert He.
  - run_cases opts Hb; simpl in Htr; intros He; try discriminate He.
    right. exists tr, ctx, kubeCfg.
    pose proof (buildControllerContext_Namespace _ _ _ _ Hb) as Hns.
    split; [done|]. split; [done|]. split; [by apply gos_run|].
    by apply run_events_run.
  - run_cases opts Hb; simpl in Htr; intros He; try discriminate He.
    + left. rewrite gos_app, run_events_app, gos_emit, (run_events_emit _ Htr). done.
    + left. rewrite gos_app, run_events_app, gos_emit, (run_events_emit _ Htr). done.
    + right. exists tr, ctx, kubeCfg.
      pose proof (buildControllerContext_Namespace _ _ _ _ Hb) as Hns.
      rewrite gos_app, run_events_app, gos_emit, (run_events_emit _ Htr).
      split; [done|]. split; [done|]. split; [by apply gos_run|].
      by apply run_events_run.
    + left. rewrite gos_app, run_events_app, gos_emit, (run_events_emit _ Htr). done.
Qed.

(** What [startLeaderElection] puts into the configuration of the elector. *)
Lemma elector_config_fields opts lec :
  elector_config opts lec →
  ∃ tr ctx kubeCfg leaderElectionClient id,
    buildControllerContext opts = (tr, Ok (ctx, kubeCfg))
    ∧ kubernetes_NewForConfig (AddUserAgent kubeCfg "leader-election")
      = Ok leaderElectionClient
    ∧ Hostname = Ok id
    ∧ lec
      = {| leaderelection.Lock :=
             {| resourcelock.ConfigMapMeta :=
                  {| resourcelock.Namespace := options.LeaderElectionNamespace opts;
                     resourcelock.Name := "cert-manager-controller" |};
                resourcelock.Client := CoreV1 leaderElectionClient;
                resourcelock.LockConfig :=
                  {| resourcelock.Identity := id +:+ "-external-cert-manager-controller";
                     resourcelock.EventRecorder := controller.Recorder ctx |} |};
           leaderelection.LeaseDuration := options.LeaderElectionLeaseDuration opts;
           leaderelection.RenewDeadline := options.LeaderElectionRenewDeadline opts;
           leaderelection.RetryPeriod := options.LeaderElectionRetryPeriod opts;
           leaderelection.Callbacks :=
             {| leaderelection.OnStartedLeading := run opts ctx StopCh;
                leaderelection.OnStoppedLeading := [AFatalf "leaderelection lost"] |} |}.
Proof.
  intros (tr & ctx & cfg & lecl & Hb & HLE & Hlecl & Hstart).
  unfold startLeaderElection in Hstart. destruct Hostname as [id|err]; [|done].
  exists tr, ctx, cfg, lecl, id. split_and!; try done. by simplify_eq.
Qed.

(** The code of the supervisor ends with the code of [run]. *)
Lemma sup_text_run opts :
  run_events (sup_text opts) ≠ [] →
  ∃ tr ctx cfg pre arg,
    buildControllerContext opts = (tr, Ok (ctx, cfg))
    ∧ sup_text opts = pre ++ run opts ctx StopCh arg.
Proof.
  pose proof (buildControllerContext_trace_not_run opts) as Htr.
  intros Hne.
  assert (∀ es q, Forall (λ e, is_run e = false) es →
                  run_events ((AEmit <$> es) ++ q) = run_events q) as Hskip.
  { intros es q Hes. by rewrite run_events_app, (run_events_emit _ Hes). }
  revert Hne. run_cases opts Hb; simpl in Htr; intros Hne.
  - by exists tr, ctx, kubeCfg, [], LeaderStop.
  - exfalso. apply Hne. by rewrite (Hskip _ _ Htr).
  - exfalso. apply Hne. by rewrite (Hskip _ _ Htr).
  - by exists tr, ctx, kubeCfg, (AEmit <$> tr), StopCh.
  - exfalso. apply Hne. by rewrite (Hskip _ _ Htr).
Qed.

End TextMore.

(** * The second invariant *)

Section Invariant2.

Context {HS : Handles} {W : Collaborators}.

Implicit Types (s : state) (ws : list (worker * wstatus)) (p : list action).

(** After the loss of the lease the callback is what the main goroutine
    has in front of it. *)
Lemma Inv_Lost opts s :
  Inv opts s → st_exit s = None → st_elector s = Lost →
  ∃ rest, st_main s = AFatalf lost_msg :: rest.
Proof.
  intros [_ HM] Hex Hel. destruct (elects opts).
  - destruct HM as [_ HE]. unfold elector_inv in HE. rewrite Hel in HE.
    destruct HE as [[x Hx]|HE]; [|done].
    rewrite Hex in Hx. discriminate Hx.
  - destruct HM as [_ HE]. rewrite Hel in HE. discriminate HE.
Qed.

(** While a worker is inside its call the counter of the WaitGroup is
    positive. *)
Lemma Inv_wg_positive opts s i w :
  Inv opts s → st_workers s !! i = Some (w, Running) → 0 < st_wg s.
Proof.
  intros [(_ & _ & (k & Hk & _) & _) _] Hi.
  pose proof (active_running _ _ _ Hi). lia.
Qed.

Lemma known_event_emits opts a :
  known_action opts a → (∀ m, a ≠ APanic m) → Forall known_event (emits a).
Proof.
  intros Hk Hn. destruct a; simpl; repeat constructor.
  - by destruct e.
  - by destruct (Hn msg).
Qed.

Lemma guarded_not_panic a rest : guarded (a :: rest) → ∀ m, a ≠ APanic m.
Proof. intros Hg m ->. done. Qed.

Lemma guarded_continue a rest s s1 :
  guarded (a :: rest) → effect a s = Some s1 → st_exit s1 = None →
  guarded (continue a rest).
Proof. destruct a; simpl; intros Hg He Hex; simplify_eq; done. Qed.

Lemma known_continue opts a rest :
  Forall (known_action opts) (a :: rest) → Forall (known_action opts) (continue a rest).
Proof.
  intros H. pose proof H as H'. apply Forall_cons in H' as [Ha Hrest].
  destruct a; simpl; try done. by constructor.
Qed.

(** How a statement can end the process. *)
Lemma effect_exit a s s1 m :
  effect a s = Some s1 → st_exit s = None → st_exit s1 = Some m →
  (a = AFatalf m ∨ a = APanic m).
Proof.
  destruct a; simpl; intros He Hex Hm.
  - injection He as <-. simpl in Hm. congruence.
  - injection He as <-. simpl in Hm. congruence.
  - injection He as <-. simpl in Hm. congruence.
  - injection He as <-. simpl in Hm. congruence.
  - case_decide; [|discriminate He]. injection He as <-. simpl in Hm. congruence.
  - injection He as <-. simpl in Hm. left. by injection Hm as ->.
  - destruct (st_elector s); try discriminate He.
    injection He as <-. simpl in Hm. congruence.
  - injection He as <-. simpl in Hm. right. by injection Hm as ->.
Qed.

Lemma effect_elector a s s1 :
  effect a s = Some s1 →
  st_elector s1 = st_elector s
  ∨ (∃ lec, a = ARunOrDie lec ∧ st_elector s = Standby ∧ st_elector s1 = Acquiring lec).
Proof.
  destruct a; simpl; intros He; simplify_eq; try (by left).
  - case_decide; simplify_eq. by left.
  - destruct (st_elector s) eqn:E; simplify_eq. right. eauto.
Qed.

Lemma effect_workers a s s1 :
  effect a s = Some s1 →
  ∀ n, n ∈ controllers_of (st_workers s) → n ∈ controllers_of (st_workers s1).
Proof.
  destruct a; simpl; intros He; simplify_eq; try done.
  - intros n Hn. simpl. unfold controllers_of in *. rewrite omap_app.
    apply elem_of_app. by left.
  - case_decide; by simplify_eq.
  - destruct (st_elector s); by simplify_eq.
Qed.

(** A statement of a goroutine keeps what the second invariant says of the
    log and of the exit. *)
Lemma Inv2_effect opts a s s1 :
  (EvFatal exited_msg ∈ st_log s1 → active (st_workers s1) = 0) →
  effect a s = Some s1 →
  st_exit s = None →
  known_action opts a ∨ (a = AFatalf lost_msg ∧ st_elector s = Lost) →
  (∀ m, a ≠ APanic m) →
  Forall known_event (st_log s) →
  Forall known_event (st_log s1)
  ∧ (∀ m, st_exit s1 = Some m →
       last (st_log s1) = Some (EvFatal m)
       ∧ (startup_error opts m
          ∨ (m = exited_msg ∧ Forall (λ x, x.2 = Returned) (st_workers s1))
          ∨ (m = lost_msg ∧ st_elector s1 = Lost))).
Proof.
  intros H5 He Hex Hk Hn Hlog.
  pose proof (effect_log _ _ _ He) as Hl.
  split.
  - rewrite Hl. apply Forall_app. split; [done|].
    destruct Hk as [Hk|[-> _]]; [by eapply known_event_emits|by repeat constructor].
  - intros m Hm.
    destruct (effect_exit _ _ _ _ He Hex Hm) as [->| ->]; [|by destruct (Hn m)].
    simpl in Hl. split; [rewrite Hl; apply last_snoc|].
    destruct Hk as [[Hk| ->]|[Heq Hel]].
    + by left.
    + right. left. split; [done|].
      apply active_zero, H5. rewrite Hl. apply elem_of_app. right. by left.
    + right. right. injection Heq as ->. split; [done|].
      destruct (effect_elector _ _ _ He) as [->|(lec & ? & _)]; done.
Qed.

Lemma Inv2_init opts : Inv2 opts (init opts).
Proof.
  unfold Inv2. simpl. split_and!; try done.
  - intros _. split; [apply Run_guarded|done].
  - intros _. apply Run_known.
  - intros lec [?|?]; done.
  - exists 0. split; [done|]. rewrite sup_init. apply sup_text_bal.
Qed.


Lemma bal_pop a rest s s1 k :
  st_wg s = active (st_workers s) + k →
  bal k (a :: rest) →
  effect a s = Some s1 →
  ∃ k', st_wg s1 = active (st_workers s1) + k' ∧ bal k' (continue a rest).
Proof.
  intros Hk Hb He. destruct a; simpl in *.
  - injection He as <-. simpl. eauto.
  - injection He as <-. simpl. exists (k + delta). split; [lia|done].
  - injection He as <-. simpl. destruct Hb as [Hk0 Hb].
    exists (k - 1). split; [|done].
    rewrite active_app. unfold active at 2. simpl. lia.
  - injection He as <-. simpl. eauto.
  - case_decide; [|discriminate He]. injection He as <-. simpl.
    destruct Hb as [-> ->]. exists 0. split; [lia|done].
  - injection He as <-. simpl. eauto.
  - destruct (st_elector s); try discriminate He. injection He as <-. simpl. eauto.
  - injection He as <-. simpl. eauto.
Qed.

Lemma quiet_frame T a s s1 :
  quiet_action T a → effect a s = Some s1 →
  st_wg s1 = st_wg s ∧ st_workers s1 = st_workers s.
Proof.
  intros Hq He. destruct a; simpl in *; try done.
  - by injection He as <-.
  - by injection He as <-.
  - destruct (st_elector s); try discriminate He. by injection He as <-.
  - by injection He as <-.
Qed.

(** Every step keeps the counter of the WaitGroup balanced. *)
Lemma step_balance opts l s s' :
  Inv opts s →
  (∃ k, st_wg s = active (st_workers s) + k ∧ bal k (sup opts s)) →
  step l s = Some s' →
  ∃ k, st_wg s' = active (st_workers s') + k ∧ bal k (sup opts s').
Proof.
  intros HI (k & Hk & Hb) Hstep. pose proof HI as [_ HM].
  unfold step in Hstep. unfold sup in *.
  destruct (st_exit s) eqn:Hex; [done|].
  destruct l.
  - destruct (st_main s) as [|a rest] eqn:Hmain; [done|].
    destruct (effect a s) as [s1|] eqn:Hs1; simpl in Hstep; simplify_eq.
    destruct (effect_frame _ _ _ Hs1) as (Em & El & _).
    destruct (elects opts); simpl.
    + destruct HM as [HQ _]. apply Forall_cons in HQ as [Hq _].
      destruct (quiet_frame _ _ _ _ Hq Hs1) as [-> ->]. rewrite El. eauto.
    + by eapply bal_pop.
  - destruct (st_leading s) as [[|a rest]|] eqn:Hlead; try done.
    destruct (effect a s) as [s1|] eqn:Hs1; simpl in Hstep; simplify_eq.
    destruct (elects opts); simpl; [|by destruct HM].
    simpl in Hb. by eapply bal_pop.
  - destruct (st_workers s !! i) as [[w [| |]]|] eqn:Hi; simplify_eq. simpl.
    rewrite (active_start _ _ _ Hi). eauto.
  - destruct (st_workers s !! i) as [[w [| |]]|] eqn:Hi; simplify_eq.
    pose proof (Inv_wg_positive _ _ _ _ HI Hi) as Hpos.
    pose proof (active_return _ _ _ Hi) as Hact.
    destruct (worker_returns_frame _ _ _ _ _ Hstep) as (-> & -> & _).
    unfold worker_returns, wg_Done in Hstep.
    destruct err as [e|].
    + destruct w; [done|]. injection Hstep as <-. simpl. eauto.
    + assert (s' = wg_Done (set_workers (<[i:=(w, Returned)]> (st_workers s))
                              (add_log [EvReturn (wid_of w) None] s))) as ->.
      { destruct w; by injection Hstep as <-. }
      unfold wg_Done. simpl. destruct (st_wg s) as [|n]; [lia|]. simpl.
      exists k. split; [lia|done].
  - destruct (st_elector s) as [|lec|lec|] eqn:Hel; simplify_eq. simpl.
    destruct (elects opts); [|destruct HM; congruence].
    destruct HM as [_ HE]. unfold elector_inv in HE. rewrite Hel in HE.
    destruct HE as [[Hstart _] Hnone]. rewrite Hnone in Hb. simpl in Hb.
    rewrite Hstart. eauto.
  - destruct (elects opts); [|destruct HM as [_ HE]; rewrite HE in Hstep; done].
    destruct (st_elector s); simplify_eq; simpl; eauto.
Qed.


Lemma Inv_exited_all_returned opts s :
  Inv opts s → EvFatal exited_msg ∈ st_log s → active (st_workers s) = 0.
Proof. intros [(_ & _ & _ & _ & H5 & _) _] Hin. by apply H5. Qed.

Lemma exit_reason_thread opts s m :
  startup_error opts m
  ∨ (m = exited_msg ∧ Forall (λ x, x.2 = Returned) (st_workers s))
  ∨ (m = lost_msg ∧ st_elector s = Lost) →
  exit_reason opts s m.
Proof. unfold exit_reason. tauto. Qed.

(** Every step keeps the second invariant. *)
Lemma Inv2_step opts l s s' :
  Inv opts s → Inv opts s' → Inv2 opts s → step l s = Some s' → Inv2 opts s'.
Proof.
  intros HI HI' (Hlog & Hexit & Hguard & Hmain & Hlead & Hcfg & Hstarted & Hstopped & Hbal)
    Hstep.
  pose proof (step_balance _ _ _ _ HI Hbal Hstep) as Hbal'.
  pose proof (Inv_exited_all_returned _ _ HI') as H5'.
  pose proof (step_log _ _ _ Hstep) as [ext Hext].
  pose proof (Inv_Lost _ _ HI) as HLost.
  unfold step in Hstep.
  destruct (st_exit s) eqn:Hex; [done|].
  destruct (Hguard eq_refl) as [Hgm Hgl]. specialize (Hmain eq_refl).
  specialize (HLost eq_refl).
  assert (is_Some (st_leading s) → EvStartedLeading ∈ st_log s') as Hstarted'.
  { intros H. rewrite Hext. apply elem_of_app. left. by apply Hstarted. }
  assert (st_elector s = Lost → EvStoppedLeading ∈ st_log s') as Hstopped'.
  { intros H. rewrite Hext. apply elem_of_app. left. by apply Hstopped. }
  unfold Inv2.
  destruct l.
  - (* the main goroutine *)
    destruct (st_main s) as [|a rest] eqn:Em; [done|].
    destruct (effect a s) as [s1|] eqn:Hs1; simpl in Hstep; simplify_eq.
    destruct (effect_frame _ _ _ Hs1) as (Em1 & El1 & _).
    assert ((known_action opts a ∨ (a = AFatalf lost_msg ∧ st_elector s = Lost))
            ∧ Forall (known_action opts) rest
            ∧ (st_elector s ≠ Lost → known_action opts a)) as (Ha & Hrest & Hnl).
    { destruct (st_elector s) eqn:Hel;
        try (apply Forall_cons in Hmain as [? ?]; split_and!; by auto).
      destruct HLost as [rest' Hr]; [done|]. injection Hr as -> ->.
      simpl in Hmain. split_and!; [by right|done|done]. }
    pose proof (guarded_not_panic _ _ Hgm) as Hnp.
    destruct (Inv2_effect opts a s s1 H5' Hs1 Hex Ha Hnp Hlog) as [Hlog1 Hexit1].
    simpl. split_and!.
    + done.
    + intros m Hm. destruct (Hexit1 m Hm) as [? ?]. split; [done|].
      by apply exit_reason_thread.
    + intros Hex1. split; [by eapply guarded_continue|by rewrite El1].
    + intros Hex1.
      destruct (effect_elector _ _ _ Hs1) as [Heq|(lec & -> & Hst & Hacq)].
      * rewrite Heq. destruct (st_elector s) eqn:Hel;
          try (apply known_continue; constructor; [by apply Hnl|done]).
        destruct HLost as [rest' Hr]; [done|]. injection Hr as -> ->.
        injection Hs1 as <-. simpl in Hex1. discriminate Hex1.
      * rewrite Hacq. apply known_continue. constructor; [|done].
        apply Hnl. by rewrite Hst.
    + by rewrite El1.
    + intros lec Hlec.
      destruct (effect_elector _ _ _ Hs1) as [Heq|(lec0 & -> & Hst & Hacq)].
      * apply Hcfg. by rewrite <- Heq.
      * rewrite Hacq in Hlec. destruct Hlec as [Hlec|Hlec]; [|discriminate Hlec].
        injection Hlec as <-. apply Hnl. by rewrite Hst.
    + rewrite El1. exact Hstarted'.
    + intros Hl. apply Hstopped'.
      destruct (effect_elector _ _ _ Hs1) as [Heq|(lec0 & _ & _ & Hacq)];
        [by rewrite <- Heq|]. rewrite Hacq in Hl. discriminate Hl.
    + done.
  - (* the goroutine of OnStartedLeading *)
    destruct (st_leading s) as [[|a rest]|] eqn:Elead; try done.
    destruct (effect a s) as [s1|] eqn:Hs1; simpl in Hstep; simplify_eq.
    destruct (effect_frame _ _ _ Hs1) as (Em1 & El1 & _).
    simpl in Hlead, Hgl.
    pose proof Hlead as Hlead0. apply Forall_cons in Hlead0 as [Ha Hrest].
    pose proof (guarded_not_panic _ _ Hgl) as Hnp.
    destruct (Inv2_effect opts a s s1 H5' Hs1 Hex (or_introl Ha) Hnp Hlog)
      as [Hlog1 Hexit1].
    simpl. split_and!.
    + done.
    + intros m Hm. destruct (Hexit1 m Hm) as [? ?]. split; [done|].
      by apply exit_reason_thread.
    + intros Hex1. split; [by rewrite Em1|by eapply guarded_continue].
    + intros Hex1. rewrite Em1.
      destruct (effect_elector _ _ _ Hs1) as [Heq|(lec & -> & Hst & Hacq)].
      * by rewrite Heq.
      * rewrite Hacq. by rewrite Hst in Hmain.
    + by apply known_continue.
    + intros lec Hlec.
      destruct (effect_elector _ _ _ Hs1) as [Heq|(lec0 & -> & Hst & Hacq)].
      * apply Hcfg. by rewrite <- Heq.
      * rewrite Hacq in Hlec. destruct Hlec as [Hlec|Hlec]; [|discriminate Hlec].
        by injection Hlec as <-.
    + intros _. apply Hstarted'. eauto.
    + intros Hl. apply Hstopped'.
      destruct (effect_elector _ _ _ Hs1) as [Heq|(lec0 & _ & _ & Hacq)];
        [by rewrite <- Heq|]. rewrite Hacq in Hl. discriminate Hl.
    + done.
  - (* a worker is scheduled *)
    destruct (st_workers s !! i) as [[w [| |]]|] eqn:Hi; simplify_eq.
    simpl in *. split_and!; try done.
    + apply Forall_app. split; [done|]. destruct w; repeat constructor.
    + intros m Hm. congruence.
  - (* the call of a worker returns *)
    destruct (st_workers s !! i) as [[w [| |]]|] eqn:Hi; simplify_eq.
    pose proof (Inv_wg_positive _ _ _ _ HI Hi) as Hpos.
    destruct (worker_returns_frame _ _ _ _ _ Hstep) as (Em1 & El1 & Ee1).
    rewrite Em1, El1, Ee1.
    unfold worker_returns, wg_Done in Hstep.
    destruct err as [e|].
    + destruct w as [|n fn stop]; [done|]. injection Hstep as <-. simpl.
      split_and!; try done.
      * apply Forall_app. split; [|by repeat constructor].
        apply Forall_app. split; [done|by repeat constructor].
      * intros m Hm. injection Hm as <-. split; [apply last_snoc|].
        right. left. exists n, e. split; [|done].
        apply controllers_of_spec. exists fn, stop.
        apply list_elem_of_fmap. exists (WController n fn stop, Running).
        split; [done|]. by eapply list_elem_of_lookup_2.
    + assert (s' = wg_Done (set_workers (<[i:=(w, Returned)]> (st_workers s))
                              (add_log [EvReturn (wid_of w) None] s))) as ->.
      { destruct w; by injection Hstep as <-. }
      unfold wg_Done in *. simpl in *. destruct (st_wg s) as [|n]; [lia|].
      simpl in *. split_and!; try done.
      * apply Forall_app. split; [done|by repeat constructor].
      * intros m Hm. congruence.
  - (* the lease is acquired *)
    destruct (st_elector s) as [|lec|lec|] eqn:Hel; simplify_eq.
    assert (elector_config opts lec) as Hlec by (apply Hcfg; by left).
    destruct (elector_config_fields _ _ Hlec)
      as (tr & ctx & cfg & lecl & id & _ & _ & _ & Hrec).
    assert (leaderelection.OnStartedLeading (leaderelection.Callbacks lec) LeaderStop
            = run opts ctx StopCh LeaderStop) as Hrun by (by rewrite Hrec).
    clear Hrec. simpl. rewrite Hrun. split_and!.
    + apply Forall_app. split; [done|by repeat constructor].
    + intros m Hm. congruence.
    + intros _. split; [done|apply run_guarded].
    + intros _. done.
    + apply run_known.
    + intros lec' [Hl|Hl]; [discriminate Hl|]. by injection Hl as <-.
    + intros _. apply elem_of_app. right. by left.
    + intros Hl. discriminate Hl.
    + simpl in Hbal'. by rewrite Hrun in Hbal'.
  - (* the lease is lost *)
    assert (∃ lec, (st_elector s = Acquiring lec ∨ st_elector s = Leading lec)
                   ∧ s' = set_main (leaderelection.OnStoppedLeading
                                      (leaderelection.Callbacks lec) ++ st_main s)
                            (set_elector Lost (add_log [EvStoppedLeading] s)))
      as (lec & Hel & ->).
    { destruct (st_elector s) as [|lec|lec|]; simplify_eq; exists lec; auto. }
    assert (elector_config opts lec) as Hlec by (by apply Hcfg).
    destruct (elector_config_fields _ _ Hlec)
      as (tr & ctx & cfg & lecl & id & _ & _ & _ & Hrec).
    assert (leaderelection.OnStoppedLeading (leaderelection.Callbacks lec)
            = [AFatalf lost_msg]) as Hstop by (by rewrite Hrec).
    clear Hrec.
    assert (Forall (known_action opts) (st_main s)) as Hmain'.
    { destruct Hel as [Hel|Hel]; by rewrite Hel in Hmain. }
    simpl. rewrite Hstop. simpl. split_and!.
    + apply Forall_app. split; [done|by repeat constructor].
    + intros m Hm. congruence.
    + intros _. done.
    + intros _. done.
    + done.
    + intros lec' [Hl|Hl]; discriminate Hl.
    + intros H. apply elem_of_app. left. by apply Hstarted.
    + intros _. apply elem_of_app. right. by left.
    + simpl in Hbal'. by rewrite Hstop in Hbal'.
Qed.

Lemma Inv2_reachable opts s : reachable opts s → Inv opts s ∧ Inv2 opts s.
Proof.
  intros [ls Hls].
  apply (exec_invariant (λ s, Inv opts s ∧ Inv2 opts s)) with ls (init opts); [| |done].
  - intros l s0 s1 [HI0 HJ0] Hs1.
    pose proof (Inv_step _ _ _ _ HI0 Hs1) as HI1.
    split; [exact HI1|exact (Inv2_step opts l s0 s1 HI0 HI1 HJ0 Hs1)].
  - split; [apply Inv_init|apply Inv2_init].
Qed.

End Invariant2.

(** * What the process never does, and why it exits *)

Section Process.

Context {HS : Handles} {W : Collaborators}.

Implicit Types (s : state) (ws : list (worker * wstatus)).

Lemma active_all_returned ws : Forall (λ x, x.2 = Returned) ws → active ws = 0.
Proof.
  unfold active. induction 1 as [|x ws Hx _ IH]; [done|].
  rewrite filter_cons_False; [exact IH|]. intros Hne. by apply Hne.
Qed.

Lemma run_text_head opts a rest : run_text opts = a :: rest → ∃ ch, a = AEmit (EvEnterRun ch).
Proof.
  unfold run_text. destruct (buildControllerContext opts) as [tr [[ctx cfg]|err]]; [|done].
  unfold run. intros H. injection H as <- _. eauto.
Qed.

(** (X8) The process never panics: neither [panic("unreachable")] after
    the call of [startLeaderElection] ([RunOrDie] does not return to its
    caller) nor a negative counter of the WaitGroup is ever reached, and a
    process that has terminated did so through [glog.Fatalf], the fatal
    line being the last of its log. *)
Theorem process_never_panics opts s :
  reachable opts s →
  (∀ m, EvPanic m ∉ st_log s)
  ∧ (∀ m, st_exit s = Some m → last (st_log s) = Some (EvFatal m)).
Proof.
  intros Hr. destruct (Inv2_reachable _ _ Hr) as [_ (Hlog & Hexit & _)].
  split.
  - intros m Hin. rewrite Forall_forall in Hlog. exact (Hlog _ Hin).
  - intros m Hm. by destruct (Hexit m Hm).
Qed.


(** (X10) While the elector is acquiring or holding the lease, it runs with
    the configuration [startLeaderElection] builds: the ConfigMap lock
    cert-manager-controller in the leader-election namespace, on the
    client of the leader-election user agent, the identity being the
    hostname followed by -external-cert-manager-controller, the three
    durations of the options, [run] as [OnStartedLeading] and a fatal exit
    as [OnStoppedLeading]. *)
Theorem elector_is_configured opts s lec :
  reachable opts s →
  st_elector s = Acquiring lec ∨ st_elector s = Leading lec →
  options.LeaderElect opts = true
  ∧ ∃ tr ctx kubeCfg leaderElectionClient id,
      buildControllerContext opts = (tr, Ok (ctx, kubeCfg))
      ∧ kubernetes_NewForConfig (AddUserAgent kubeCfg "leader-election")
        = Ok leaderElectionClient
      ∧ Hostname = Ok id
      ∧ lec
        = {| leaderelection.Lock :=
               {| resourcelock.ConfigMapMeta :=
                    {| resourcelock.Namespace := options.LeaderElectionNamespace opts;
                       resourcelock.Name := "cert-manager-controller" |};
                  resourcelock.Client := CoreV1 leaderElectionClient;
                  resourcelock.LockConfig :=
                    {| resourcelock.Identity := id +:+ "-external-cert-manager-controller";
                       resourcelock.EventRecorder := controller.Recorder ctx |} |};
             leaderelection.LeaseDuration := options.LeaderElectionLeaseDuration opts;
             leaderelection.RenewDeadline := options.LeaderElectionRenewDeadline opts;
             leaderelection.RetryPeriod := options.LeaderElectionRetryPeriod opts;
             leaderelection.Callbacks :=
               {| leaderelection.OnStartedLeading := run opts ctx StopCh;
                  leaderelection.OnStoppedLeading := [AFatalf "leaderelection lost"] |} |}.
Proof.
  intros Hr Hel.
  destruct (Inv2_reachable _ _ Hr) as [_ (_ & _ & _ & _ & _ & Hcfg & _)].
  pose proof (Hcfg lec Hel) as Hlec. split.
  - by destruct Hlec as (? & ? & ? & ? & _ & ? & _).
  - by apply elector_config_fields.
Qed.

(** (X11) The counter of the WaitGroup at the wait: once the supervisor
    stands in [wg.Wait()], the counter is the number of workers that have
    not returned, so the wait returns exactly when every registered
    worker has returned; what follows it is the fatal exit of the control
    loops and nothing else. *)
Theorem wait_returns_when_all_returned opts s rest :
  reachable opts s →
  st_exit s = None →
  sup opts s = AWgBlocked :: rest →
  rest = [AFatalf exited_msg]
  ∧ st_wg s = active (st_workers s)
  ∧ (is_Some (step (supervisor opts) s) ↔ Forall (λ x, x.2 = Returned) (st_workers s))
  ∧ (∀ s', step (supervisor opts) s = Some s' →
       ∃ s'', step (supervisor opts) s' = Some s''
              ∧ st_exit s'' = Some exited_msg
              ∧ st_log s'' = st_log s ++ [EvFatal exited_msg]).
Proof.
  intros Hr Hex Hsup.
  destruct (Inv2_reachable _ _ Hr) as [_ (_ & _ & _ & _ & _ & _ & _ & _ & k & Hk & Hbal)].
  rewrite Hsup in Hbal. simpl in Hbal. destruct Hbal as [-> ->].
  rewrite Nat.add_0_r in Hk.
  assert (step (supervisor opts) s
          = if decide (st_wg s = 0)
            then Some (if elects opts
                       then set_leading (Some [AFatalf exited_msg]) (add_log [] s)
                       else set_main [AFatalf exited_msg] (add_log [] s))
            else None) as Hstep.
  { unfold supervisor, sup, step in *. rewrite Hex.
    destruct (elects opts).
    - destruct (st_leading s) as [p|] eqn:Hl; simpl in Hsup.
      + rewrite Hsup. simpl. by destruct (decide (st_wg s = 0)).
      + apply run_text_head in Hsup as [ch Hch]. discriminate Hch.
    - rewrite Hsup. simpl. by destruct (decide (st_wg s = 0)). }
  split_and!; [done|done| |].
  - rewrite Hstep. destruct (decide (st_wg s = 0)) as [H0|H0].
    + split; [|by eauto]. intros _. apply active_zero. lia.
    + split; [by intros [? ?]|]. intros Hall. apply active_all_returned in Hall. lia.
  - intros s' Hs'. rewrite Hstep in Hs'.
    destruct (decide (st_wg s = 0)) as [H0|H0]; [|done]. injection Hs' as <-.
    unfold supervisor, step. destruct (elects opts); simpl; rewrite Hex; simpl.
    + eexists. split; [done|]. simpl. by rewrite app_nil_r.
    + eexists. split; [done|]. simpl. by rewrite app_nil_r.
Qed.

(** The workers of a reachable state are among those the code of the
    supervisor registers, in its order. *)
Lemma workers_prefix opts s :
  reachable opts s →
  st_workers s = []
  ∨ ∃ tr ctx cfg,
      buildControllerContext opts = (tr, Ok (ctx, cfg))
      ∧ elects opts = options.LeaderElect opts
      ∧ (st_workers s).*1 ++ gos (sup opts s)
        = WMetrics StopCh :: registered_by opts ctx StopCh range_Known.
Proof.
  intros Hr. destruct (Inv_reachable _ _ Hr) as [(_ & H2 & _) _].
  destruct (sup_text_shape opts) as [[Hg _]|(tr & ctx & cfg & Hb & Hel & Hg & _)].
  - left. rewrite Hg in H2. apply app_eq_nil in H2 as [H2 _].
    by apply fmap_nil_inv in H2.
  - right. exists tr, ctx, cfg. by rewrite H2.
Qed.

(** (X12) Under leader election no worker exists before the lease has been
    acquired: a registered worker means that [OnStartedLeading] has been
    called, and that the elector holds the lease or has lost it. *)
Theorem workers_wait_for_leadership opts s :
  options.LeaderElect opts = true →
  reachable opts s →
  st_workers s ≠ [] →
  EvStartedLeading ∈ st_log s
  ∧ is_Some (st_leading s)
  ∧ ((∃ lec, st_elector s = Leading lec) ∨ st_elector s = Lost).
Proof.
  intros Hle Hr Hws.
  destruct (Inv2_reachable _ _ Hr) as [HI (_ & _ & _ & _ & _ & _ & Hstarted & _)].
  destruct (workers_prefix _ _ Hr) as [?|(tr & ctx & cfg & Hb & Hel & Hpre)]; [done|].
  rewrite Hle in Hel.
  destruct HI as [(_ & H2 & _) Hrest]. rewrite Hel in Hrest. destruct Hrest as [_ Helec].
  unfold sup, sup_text in H2. rewrite Hel in H2.
  assert (is_Some (st_leading s)) as Hlead.
  { destruct (st_leading s) as [p|] eqn:Hl; [by eauto|]. simpl in H2. exfalso.
    apply Hws. apply (fmap_nil_inv fst).
    by apply (app_inv_tail (gos (run_text opts))). }
  split_and!; [by apply Hstarted|done|].
  unfold elector_inv in Helec. destruct Hlead as [p Hp].
  destruct (st_elector s) as [|lec|lec|]; [|destruct Helec as [_ Helec]|by eauto|by right];
    rewrite Hp in Helec; discriminate Helec.
Qed.

(** (X13) The channel the elector passes to [OnStartedLeading] is not
    used: every worker, with or without leader election, is started on the
    stop channel of [Run], and so is every call of a controller; under
    leader election [run] is entered with the elector's channel only. *)
Theorem workers_use_the_stop_channel_of_Run opts s :
  reachable opts s →
  (∀ i w st, st_workers s !! i = Some (w, st) →
     w = WMetrics StopCh ∨ ∃ n fn, w = WController n fn StopCh)
  ∧ (∀ n w stop, EvInvoke n w stop ∈ st_log s → stop = StopCh)
  ∧ (∀ ch, EvEnterRun ch ∈ st_log s →
       ch = if options.LeaderElect opts then LeaderStop else StopCh).
Proof.
  intros Hr. destruct (Inv_reachable _ _ Hr) as [HC _].
  assert (∀ w, w ∈ gos (sup_text opts) →
               w = WMetrics StopCh ∨ ∃ n fn, w = WController n fn StopCh) as Htext.
  { intros w Hw.
    destruct (sup_text_shape opts) as [[Hg _]|(tr & ctx & cfg & _ & _ & Hg & _)];
      rewrite Hg in Hw; [by apply elem_of_nil in Hw|].
    apply elem_of_cons in Hw as [->|Hw]; [by left|]. right.
    apply registered_by_spec in Hw as (n & fn & -> & _). eauto. }
  split_and!.
  - intros i w st Hi. apply Htext. by eapply Core_worker_in_text.
  - intros n w stop Hin. destruct HC as (_ & _ & _ & _ & _ & Hinv).
    rewrite Forall_forall in Hinv. destruct (Hinv _ Hin) as [_ [fn Hfn]].
    destruct (Htext _ Hfn) as [Hm|(n' & fn' & Heq)]; [discriminate Hm|].
    by injection Heq as _ _ ->.
  - intros ch Hin. destruct HC as (H1 & _).
    assert (EvEnterRun ch ∈ run_events (sup_text opts)) as Hrun.
    { rewrite <- H1. apply elem_of_app. left. by apply list_elem_of_filter. }
    destruct (sup_text_shape opts) as [[_ He]|(tr & ctx & cfg & _ & _ & _ & He)];
      rewrite He in Hrun; [by apply elem_of_nil in Hrun|].
    apply elem_of_cons in Hrun as [Heq|Hrun]; [by injection Heq|].
    apply elem_of_app in Hrun as [Hrun|Hrun].
    + apply list_elem_of_fmap in Hrun as (w & Hw & _). discriminate Hw.
    + unfold warmup_and_wait in Hrun.
      repeat (apply elem_of_cons in Hrun as [Hrun|Hrun]; [discriminate Hrun|]).
      by apply elem_of_nil in Hrun.
Qed.

(** (X14) The order of registration: the metrics exporter is the first
    worker, the controllers follow in the order of the iteration over the
    registry, each with the runnable its constructor builds from the
    context of [buildControllerContext]; once the shared informer factory
    has been started the list is complete. *)
Theorem workers_registered_in_registry_order opts s :
  reachable opts s →
  st_workers s ≠ [] →
  ∃ tr ctx cfg,
    buildControllerContext opts = (tr, Ok (ctx, cfg))
    ∧ (st_workers s).*1
      `prefix_of` WMetrics StopCh :: registered_by opts ctx StopCh range_Known
    ∧ (EvFactoryStart SharedInformerFactory StopCh ∈ st_log s →
       (st_workers s).*1 = WMetrics StopCh :: registered_by opts ctx StopCh range_Known).
Proof.
  intros Hr Hws.
  destruct (workers_prefix _ _ Hr) as [?|(tr & ctx & cfg & Hb & Hel & Hpre)]; [done|].
  exists tr, ctx, cfg. split_and!; [done| |].
  - rewrite <- Hpre. by apply prefix_app_r.
  - intros Hstart.
    rewrite (registration_complete _ _ (Inv_reachable _ _ Hr) Hstart), app_nil_r in Hpre.
    done.
Qed.

Lemma controllers_of_wids ws :
  controllers_of ws
  = omap (λ i, match i with Controller n => Some n | Metrics => None end)
      (wid_of <$> ws.*1).
Proof.
  unfold controllers_of. induction ws as [|x ws IH]; [done|].
  rewrite !fmap_cons. cbn [omap list_omap]. rewrite <- IH. cbn [omap list_omap].
  reflexivity.
Qed.

(** (X15) When the iteration over the registry yields each entry once, no
    goroutine is started twice: the metrics exporter and every controller
    appear at most once among the workers. *)
Theorem no_worker_registered_twice opts s :
  range_Known ≡ₚ map_to_list Known →
  reachable opts s →
  NoDup (wid_of <$> (st_workers s).*1)
  ∧ NoDup (controllers_of (st_workers s)).
Proof.
  intros Hperm Hr.
  assert (NoDup (wid_of <$> (st_workers s).*1)) as Hnd.
  { destruct (workers_prefix _ _ Hr) as [->|(tr & ctx & cfg & _ & _ & Hpre)];
      [by apply NoDup_nil|].
    assert (wid_of <$> (st_workers s).*1
            `sublist_of` wid_of <$> ((st_workers s).*1 ++ gos (sup opts s))) as Hsub.
    { apply fmap_sublist. by apply sublist_inserts_r. }
    refine (sublist_NoDup _ _ _ Hsub). clear Hsub.
    rewrite Hpre. unfold registered_by. rewrite fmap_cons.
    assert (∀ l : list (string * (controller.Context Clientset CMClientset Quantity → Interface)),
              wid_of <$> ((λ x, WController x.1 (x.2 ctx) StopCh) <$> l)
              = Controller <$> l.*1) as ->.
    { induction l as [|x l IH]; [done|]. rewrite !fmap_cons. by rewrite IH. }
    apply NoDup_cons. split.
    - intros Hin. apply list_elem_of_fmap in Hin as (x & Hx & _). discriminate Hx.
    - assert (NoDup (filter (λ x, selected opts x.1) range_Known).*1) as Hfst.
      { assert ((filter (λ x, selected opts x.1) range_Known).*1
                `sublist_of` range_Known.*1) as Hsub
          by apply fmap_sublist, sublist_filter.
        refine (sublist_NoDup _ _ _ Hsub).
        rewrite Hperm. apply NoDup_fst_map_to_list. }
      apply NoDup_fmap_2; [|done].
      intros ?? Heq. by injection Heq. }
  split; [done|].
  rewrite controllers_of_wids.
  revert Hnd. generalize (wid_of <$> (st_workers s).*1). intros l.
  induction 1 as [|i l Hi _ IH]; simpl; [by apply NoDup_nil|].
  destruct i as [|n]; simpl; [done|]. apply NoDup_cons. split; [|done].
  intros Hin. apply Hi. apply list_elem_of_omap in Hin as (j & Hj & Heq).
  destruct j; simplify_eq. done.
Qed.

End Process.

(** * Start-up errors *)

Section StartUp.

Context {HS : Handles} {W : Collaborators}.

Implicit Types (s : state).


Lemma step_not_exited l s s' : step l s = Some s' → st_exit s = None.
Proof. unfold step. by destruct (st_exit s). Qed.

Lemma exec_not_exited ls s s' : exec ls s = Some s' → ls ≠ [] → st_exit s = None.
Proof.
  destruct ls as [|l ls]; [done|]. simpl. intros Hex _.
  destruct (step l s) as [s0|] eqn:Hs0; [|done]. by eapply step_not_exited.
Qed.






End StartUp.

(** * What the supervisor logs *)

Section Logging.

Context {HS : Handles} {W : Collaborators}.

Implicit Types (s : state) (p : list action).

Lemma to_log_app p q : to_log (p ++ q) = to_log p ++ to_log q.
Proof. unfold to_log. by rewrite flat_map_app. Qed.

Lemma to_log_flat_map {A} (f : A → list action) (l : list A) x e :
  x ∈ l → e ∈ to_log (f x) → e ∈ to_log (flat_map f l).
Proof.
  intros Hx He. induction l as [|y l IH]; [by apply elem_of_nil in Hx|].
  cbn [flat_map]. rewrite to_log_app. apply elem_of_app.
  apply elem_of_cons in Hx as [<-|Hx]; [by left|right; by apply IH].
Qed.

Lemma to_log_continue a rest : to_log (continue a rest) = to_log rest.
Proof. unfold to_log. by destruct a. Qed.

Lemma to_log_cons a rest e :
  e ∈ to_log (a :: rest) → emits a = [e] ∨ e ∈ to_log rest.
Proof.
  unfold to_log. destruct a; simpl; auto.
  intros Hin. apply elem_of_cons in Hin as [->|?]; auto.
Qed.

Lemma quiet_no_wait T a : quiet_action T a → EvWgWait ∉ emits a.
Proof.
  destruct a; simpl; try done.
  - intros [Hp _] Hin. apply list_elem_of_singleton in Hin. by subst.
  - intros _ Hin. apply list_elem_of_singleton in Hin. done.
  - intros _ Hin. by apply elem_of_nil in Hin.
  - intros _ Hin. apply list_elem_of_singleton in Hin. done.
Qed.

(** A step is one of the supervisor, or leaves its code alone and does
    not log a wait. *)
Lemma sup_step opts l s s' :
  Inv opts s →
  step l s = Some s' →
  (sup opts s' = sup opts s ∧ ∃ es, st_log s' = st_log s ++ es ∧ EvWgWait ∉ es)
  ∨ (∃ a rest, sup opts s = a :: rest ∧ sup opts s' = continue a rest
               ∧ st_log s' = st_log s ++ emits a).
Proof.
  intros HI Hstep. pose proof HI as [_ HM].
  unfold step in Hstep. unfold sup in *.
  destruct (st_exit s) eqn:Hex; [done|].
  destruct l.
  - destruct (st_main s) as [|a rest] eqn:Hmain; [done|].
    destruct (effect a s) as [s1|] eqn:Hs1; simpl in Hstep; simplify_eq.
    destruct (effect_frame _ _ _ Hs1) as (Em & El & _).
    pose proof (effect_log _ _ _ Hs1) as Hlog.
    destruct (elects opts); simpl.
    + left. rewrite El. split; [done|]. exists (emits a). split; [done|].
      destruct HM as [HQ _]. apply Forall_cons in HQ as [Hq _].
      by eapply quiet_no_wait.
    + right. by exists a, rest.
  - destruct (st_leading s) as [[|a rest]|] eqn:Hlead; try done.
    destruct (effect a s) as [s1|] eqn:Hs1; simpl in Hstep; simplify_eq.
    pose proof (effect_log _ _ _ Hs1) as Hlog.
    destruct (elects opts); simpl; [|by destruct HM].
    right. by exists a, rest.
  - destruct (st_workers s !! i) as [[w [| |]]|] eqn:Hi; simplify_eq. simpl.
    left. split; [done|]. exists (start_events w). split; [done|].
    destruct w; simpl; intros Hin;
      repeat (apply elem_of_cons in Hin as [Hin|Hin]; [discriminate Hin|]);
      by apply elem_of_nil in Hin.
  - destruct (st_workers s !! i) as [[w [| |]]|] eqn:Hi; simplify_eq.
    destruct (worker_returns_frame _ _ _ _ _ Hstep) as (-> & -> & _).
    left. split; [done|].
    unfold worker_returns, wg_Done in Hstep.
    destruct err as [e|].
    + destruct w as [|n fn stop]; [done|]. injection Hstep as <-. simpl.
      eexists. rewrite <- app_assoc. split; [done|]. simpl. intros Hin.
      repeat (apply elem_of_cons in Hin as [Hin|Hin]; [discriminate Hin|]).
      by apply elem_of_nil in Hin.
    + assert (s' = wg_Done (set_workers (<[i:=(w, Returned)]> (st_workers s))
                              (add_log [EvReturn (wid_of w) None] s))) as ->.
      { destruct w; by injection Hstep as <-. }
      unfold wg_Done. simpl.
      destruct (st_wg s) as [|n]; simpl; eexists;
        rewrite <- ?app_assoc; (split; [done|]); simpl; intros Hin;
        repeat (apply elem_of_cons in Hin as [Hin|Hin]; [discriminate Hin|]);
        by apply elem_of_nil in Hin.
  - destruct (st_elector s) as [|lec|lec|] eqn:Hel; simplify_eq. simpl.
    left. split.
    + destruct (elects opts); [|done].
      destruct HM as [_ HE]. unfold elector_inv in HE. rewrite Hel in HE.
      destruct HE as [[Hstart _] Hnone]. rewrite Hnone. simpl. by rewrite Hstart.
    + exists [EvStartedLeading]. split; [done|]. intros Hin.
      apply list_elem_of_singleton in Hin. discriminate Hin.
  - destruct (elects opts); [|destruct HM as [_ HE]; rewrite HE in Hstep; done].
    left.
    assert (st_leading s' = st_leading s ∧ st_log s' = st_log s ++ [EvStoppedLeading])
      as [-> ->] by (destruct (st_elector s); by simplify_eq).
    split; [done|]. exists [EvStoppedLeading]. split; [done|]. intros Hin.
    apply list_elem_of_singleton in Hin. discriminate Hin.
Qed.

Lemma Inv3_init opts : Inv3 opts (init opts).
Proof.
  unfold Inv3. rewrite sup_init. split; [by left|].
  simpl. intros Hin. by apply elem_of_nil in Hin.
Qed.

Lemma Inv3_step opts l s s' :
  Inv opts s → Inv2 opts s → Inv3 opts s → step l s = Some s' → Inv3 opts s'.
Proof.
  intros HI HJ [Hall Hwait] Hstep.
  destruct (sup_step _ _ _ _ HI Hstep)
    as [[Hsup (es & Hlog & Hes)]|(a & rest & Hsup & Hsup' & Hlog)].
  - split.
    + intros e He. rewrite Hsup, Hlog. destruct (Hall e He) as [?|?]; [by left|].
      right. apply elem_of_app. by left.
    + rewrite Hsup, Hlog. intros Hin. apply Hwait.
      apply elem_of_app in Hin as [?|?]; done.
  - split.
    + intros e He. rewrite Hsup', Hlog, to_log_continue.
      destruct (Hall e He) as [Hin|Hin].
      * rewrite Hsup in Hin. apply to_log_cons in Hin as [Hin|Hin]; [|by left].
        right. apply elem_of_app. right. rewrite Hin. by left.
      * right. apply elem_of_app. by left.
    + rewrite Hsup', Hlog, to_log_continue. intros Hin.
      apply elem_of_app in Hin as [Hin|Hin].
      * specialize (Hwait Hin). rewrite Hsup in Hwait.
        change (a :: rest) with ([a] ++ rest) in Hwait. rewrite to_log_app in Hwait.
        by apply app_eq_nil in Hwait as [_ ?].
      * destruct HI as [(_ & _ & (k0 & _ & Hdisc) & _) _]. rewrite Hsup in Hdisc.
        destruct HJ as (_ & _ & _ & _ & _ & _ & _ & _ & k & _ & Hbal).
        rewrite Hsup in Hbal.
        destruct a; simpl in Hin, Hbal, Hdisc;
          try (by apply elem_of_nil in Hin);
          try (apply list_elem_of_singleton in Hin; try discriminate Hin).
        -- subst e. by destruct Hdisc as [? _].
        -- by destruct Hbal as [_ ->].
Qed.

Lemma Inv3_reachable opts s : reachable opts s → Inv3 opts s.
Proof.
  intros [ls Hls].
  cut ((Inv opts s ∧ Inv2 opts s) ∧ Inv3 opts s); [tauto|].
  apply (exec_invariant (λ s, (Inv opts s ∧ Inv2 opts s) ∧ Inv3 opts s))
    with ls (init opts); [| |exact Hls].
  - intros l s0 s1 [[HI0 HJ0] HK0] Hs1.
    pose proof (Inv_step _ _ _ _ HI0 Hs1) as HI1.
    split; [split; [exact HI1|exact (Inv2_step opts l s0 s1 HI0 HI1 HJ0 Hs1)]|].
    exact (Inv3_step opts l s0 s1 HI0 HJ0 HK0 Hs1).
  - split; [split; [apply Inv_init|apply Inv2_init]|apply Inv3_init].
Qed.

(** (X17) Once the supervisor has called [wg.Wait()], the log accounts for
    every entry of the registry that was not started: a name that is not
    enabled has its line, and so has clusterissuers when it is enabled and
    a namespace is set; the start of the shared informer factories has
    been announced. *)
Theorem skipped_controllers_are_logged opts s :
  reachable opts s →
  EvWgWait ∈ st_log s →
  EvInfo 4 "Starting shared informer factory" ∈ st_log s
  ∧ ∀ n fn, (n, fn) ∈ range_Known →
      (n ∉ options.EnabledControllers opts →
       EvInfo 0 (n +:+ " controller is not in list of controllers to enable, so not enabling it")
         ∈ st_log s)
      ∧ (n ∈ options.EnabledControllers opts →
         options.Namespace opts ≠ "" →
         n = clusterissuers.ControllerName →
         EvInfo 0 "Skipping ClusterIssuer controller as cert-manager is scoped to a single namespace"
           ∈ st_log s).
Proof.
  intros Hr Hwait.
  destruct (Inv3_reachable _ _ Hr) as [Hall Hnone].
  destruct (Inv_reachable _ _ Hr) as [(H1 & _) _].
  assert (∀ e, e ∈ to_log (sup_text opts) → e ∈ st_log s) as Hlogged.
  { intros e He. destruct (Hall e He) as [Hin|?]; [|done].
    rewrite (Hnone Hwait) in Hin. by apply elem_of_nil in Hin. }
  destruct (sup_text_run opts) as (tr & ctx & cfg & pre & arg & Hb & Htext).
  { intros He. rewrite He in H1. apply app_eq_nil in H1 as [H1 _].
    assert (EvWgWait ∈ filter (λ e, is_run e) (st_log s)) as Hin
      by (by apply list_elem_of_filter).
    rewrite H1 in Hin. by apply elem_of_nil in Hin. }
  pose proof (buildControllerContext_Namespace _ _ _ _ Hb) as Hns.
  assert (∀ e, e ∈ to_log (run opts ctx StopCh arg) → e ∈ st_log s) as Hrun.
  { intros e He. apply Hlogged. rewrite Htext, to_log_app. apply elem_of_app. by right. }
  assert (∀ n fn e, (n, fn) ∈ range_Known →
                    loop_body opts ctx StopCh (n, fn) = [AEmit e] → e ∈ st_log s) as Hloop.
  { intros n fn e Hin Hbody. apply Hrun. unfold run.
    change (to_log (?a :: ?b :: ?c :: ?p)) with (to_log [a; b; c] ++ to_log p).
    apply elem_of_app. right. rewrite to_log_app. apply elem_of_app. left.
    apply (to_log_flat_map _ _ (n, fn) e Hin). rewrite Hbody. by left. }
  split.
  - apply Hrun. unfold run.
    change (to_log (?a :: ?b :: ?c :: ?p)) with (to_log [a; b; c] ++ to_log p).
    apply elem_of_app. right. rewrite to_log_app. apply elem_of_app. right. by left.
  - intros n fn Hin. split.
    + intros Hen. apply (Hloop n fn _ Hin).
      unfold loop_body, util.Contains. by rewrite bool_decide_eq_false_2.
    + intros Hen Hscoped ->. apply (Hloop _ fn _ Hin).
      unfold loop_body, util.Contains. rewrite bool_decide_eq_true_2 by done.
      rewrite Hns. by rewrite !bool_decide_eq_true_2.
Qed.

End Logging.

(** * The further theorems on the concrete deployment *)

Section MoreOnScenario.

Import Scenario.

Ltac find_event :=
  vm_compute; repeat first [apply list_elem_of_here | apply list_elem_of_further].

Ltac not_among Hin :=
  vm_compute in Hin;
  repeat (apply elem_of_cons in Hin as [Hin|Hin]; [discriminate Hin|]);
  by apply elem_of_nil in Hin.

Lemma X1_witness :
  buildControllerContext (W:=world) opts_unreachable
  = ([EvKubeConfig "unreachable" false],
     Err "error creating rest config: no route to host").
Proof.
  destruct (build_connection_errors_first (W:=world) opts_unreachable) as (Hcfg & _).
  apply (Hcfg "no route to host"). vm_compute. reflexivity.
Defined.

Lemma X2_witness :
  (buildControllerContext (W:=world) opts_bad_cpu).2
  = Err ("error parsing " +:+ field_name RequestCPU
         +:+ ": quantities must match the regular expression")
  ∧ last (buildControllerContext (W:=world) opts_bad_cpu).1
    = Some (EvParseQuantity RequestCPU "not-a-quantity" false).
Proof.
  destruct (build_names_first_bad_field (W:=world) opts_bad_cpu "" "" ""
              RequestCPU "quantities must match the regular expression")
    as (Herr & Hlast & _).
  - vm_compute. reflexivity.
  - vm_compute. reflexivity.
  - vm_compute. reflexivity.
  - constructor.
  - vm_compute. reflexivity.
  - split; [exact Herr|exact Hlast].
Defined.

Lemma X3_witness :
  is_ok (buildControllerContext (W:=world) opts).2 = true.
Proof.
  apply (build_succeeds_iff (W:=world) opts). exists "".
  split; [vm_compute; reflexivity|].
  split; [vm_compute; reflexivity|].
  split; [vm_compute; reflexivity|].
  intros f. destruct f; vm_compute; reflexivity.
Defined.

Lemma X4_witness :
  ∃ tr e, (buildControllerContext (W:=world) opts_bad_cpu).1 = tr ++ [e]
          ∧ failed e = true
          ∧ Forall (λ e, failed e = false) tr.
Proof.
  destruct (build_stops_at_first_failure (W:=world) opts_bad_cpu) as [_ Herr].
  apply Herr. vm_compute. reflexivity.
Defined.

Lemma X5_witness :
  controller.sinkClient (controller.Recorder expected_context)
  = controller.Client expected_context
  ∧ controller.Component (controller.Recorder expected_context) = "cert-manager".
Proof.
  destruct (build_wires_one_connection (W:=world) opts expected_trace expected_context "")
    as (_ & _ & _ & _ & _ & Hsink & Hcomp).
  - vm_compute. reflexivity.
  - split; [exact Hsink|exact Hcomp].
Defined.

Lemma X6_witness :
  ParseQuantity (Collaborators:=world) (options.ACMEHTTP01SolverResourceLimitsMemory opts)
  = Ok (controller.HTTP01SolverResourceLimitsMemory (controller.ACMEOptions_ expected_context)).
Proof.
  destruct (build_quantities_match_fields (W:=world) opts expected_trace expected_context "")
    as (_ & _ & _ & Hlm & _).
  - vm_compute. reflexivity.
  - exact Hlm.
Defined.

Lemma X7_witness :
  controller.informerNamespace (controller.SharedInformerFactory expected_context)
  = options.Namespace opts
  ∧ controller.defaultResync (controller.SharedInformerFactory expected_context)
    = (30 * Second)%Z.
Proof.
  destruct (build_scopes_factories (W:=world) opts expected_trace expected_context "")
    as (_ & Hns & _ & Hresync & _).
  - vm_compute. reflexivity.
  - split; [exact Hns|exact Hresync].
Defined.

Lemma X8_witness :
  (EvPanic "unreachable" ∉ st_log (after opts_elect led_and_returned))
  ∧ (EvPanic "sync: negative WaitGroup counter"
       ∉ st_log (after opts_elect led_and_returned)).
Proof.
  destruct (process_never_panics (W:=world) opts_elect (after opts_elect led_and_returned))
    as [Hnone _].
  - apply reachable_after. vm_compute. reflexivity.
  - split; [exact (Hnone "unreachable")|exact (Hnone "sync: negative WaitGroup counter")].
Defined.


Lemma X10_witness :
  st_elector (after opts_elect leading) = Leading expected_election
  ∧ options.LeaderElect opts_elect = true.
Proof.
  assert (st_elector (after opts_elect leading) = Leading expected_election) as Hel.
  { vm_compute. reflexivity. }
  destruct (elector_is_configured (W:=world) opts_elect (after opts_elect leading)
              expected_election) as [Hle _].
  - apply reachable_after. vm_compute. reflexivity.
  - right. exact Hel.
  - split; [exact Hel|exact Hle].
Defined.

Lemma X11_witness :
  st_wg (after opts_elect led_and_returned) = 0
  ∧ is_Some (step (supervisor (W:=world) opts_elect) (after opts_elect led_and_returned)).
Proof.
  destruct (wait_returns_when_all_returned (W:=world) opts_elect
              (after opts_elect led_and_returned) [AFatalf exited_msg])
    as (_ & Hwg & Hiff & _).
  - apply reachable_after. vm_compute. reflexivity.
  - vm_compute. reflexivity.
  - vm_compute. reflexivity.
  - split.
    + vm_compute. reflexivity.
    + apply Hiff. vm_compute. repeat constructor.
Defined.

Lemma X12_witness :
  EvStartedLeading ∈ st_log (after opts_elect led_and_returned)
  ∧ is_Some (st_leading (after opts_elect led_and_returned)).
Proof.
  destruct (workers_wait_for_leadership (W:=world) opts_elect
              (after opts_elect led_and_returned)) as (Hstarted & Hlead & _).
  - reflexivity.
  - apply reachable_after. vm_compute. reflexivity.
  - vm_compute. discriminate.
  - split; [exact Hstarted|exact Hlead].
Defined.

Lemma X13_witness :
  EvEnterRun LeaderStop ∈ st_log (after opts_elect led_and_returned)
  ∧ EvInvoke "issuers" 5 StopCh ∈ st_log (after opts_elect led_and_returned)
  ∧ LeaderStop = (if options.LeaderElect opts_elect then LeaderStop else StopCh).
Proof.
  destruct (workers_use_the_stop_channel_of_Run (W:=world) opts_elect
              (after opts_elect led_and_returned)) as (_ & _ & Henter).
  - apply reachable_after. vm_compute. reflexivity.
  - assert (EvEnterRun LeaderStop ∈ st_log (after opts_elect led_and_returned)) as Hin
      by find_event.
    split; [exact Hin|]. split; [find_event|exact (Henter LeaderStop Hin)].
Defined.

Lemma X14_witness :
  ∃ tr ctx cfg,
    buildControllerContext (W:=world) opts_team_a = (tr, Ok (ctx, cfg))
    ∧ (st_workers (after opts_team_a warming)).*1
      `prefix_of` WMetrics StopCh :: registered_by opts_team_a ctx StopCh (range_Known (Collaborators:=world))
    ∧ (EvFactoryStart SharedInformerFactory StopCh ∈ st_log (after opts_team_a warming) →
       (st_workers (after opts_team_a warming)).*1
       = WMetrics StopCh :: registered_by opts_team_a ctx StopCh (range_Known (Collaborators:=world))).
Proof.
  apply (workers_registered_in_registry_order (W:=world) opts_team_a
           (after opts_team_a warming)).
  - apply reachable_after. vm_compute. reflexivity.
  - vm_compute. discriminate.
Defined.

Lemma X15_witness :
  NoDup (controllers_of (st_workers (after opts waiting))).
Proof.
  destruct (no_worker_registered_twice (W:=world) opts (after opts waiting)) as [_ Hnd].
  - reflexivity.
  - apply reachable_after. vm_compute. reflexivity.
  - exact Hnd.
Defined.


Lemma X17_witness :
  EvInfo 0 "clusterissuers controller is not in list of controllers to enable, so not enabling it"
    ∈ st_log (after opts waiting)
  ∧ EvInfo 0 "Skipping ClusterIssuer controller as cert-manager is scoped to a single namespace"
      ∈ st_log (after opts_team_a waiting).
Proof.
  split.
  - destruct (skipped_controllers_are_logged (W:=world) opts (after opts waiting))
      as [_ Hall].
    + apply reachable_after. vm_compute. reflexivity.
    + find_event.
    + destruct (Hall "clusterissuers" (λ _, "clusterissuers-loop")) as [Hne _].
      * find_event.
      * apply Hne. intros Hin. not_among Hin.
  - destruct (skipped_controllers_are_logged (W:=world) opts_team_a
                (after opts_team_a waiting)) as [_ Hall].
    + apply reachable_after. vm_compute. reflexivity.
    + find_event.
    + destruct (Hall "clusterissuers" (λ _, "clusterissuers-loop")) as [_ Hskip].
      * find_event.
      * apply Hskip; [find_event|discriminate|reflexivity].
Defined.

End MoreOnScenario.
